(** * IBTrading: the order manager and the portfolio manager

    A shallow embedding of [OrderManager.cpp], [PortfolioManager.cpp] and
    [TradingClient.cpp] (namespace [IBTrading]) and the properties of the
    order book, the risk check and the daily-return statistics.

    - [double] is an interface ([Double.Ops]); its instance is IEEE 754
      binary64 (Rocq's primitive floats), what the compiled program
      computes with.
    - [int] is [Z]; where the source increments an [int] the wrap-around to
      32 bits is written out.
    - [std::unordered_map<int, Order>] is [gmap Z Order].
    - The member functions of [OrderManager] run in a state monad over the
      manager, the client and a log of the lock, book and venue events, in
      program order.
    - [Logger] only prints; its calls are left out. *)

From Stdlib Require Import ZArith Floats Uint63.
From Stdlib Require Import List Lia Bool.
From Stdlib Require Import Sorting.Sorted Sorting.Permutation.
From stdpp Require Import base option gmap strings list sorting.

Local Open Scope Z_scope.

(* Decimal literals of [double] are read as the nearest binary64 value. *)
Set Warnings "-inexact-float".

(** ** [int] and [std::size_t] *)

Module Int.

Definition INT_MIN : Z := - 2 ^ 31.
Definition INT_MAX : Z := 2 ^ 31 - 1.

Definition in_range (z : Z) : bool := (INT_MIN <=? z) && (z <=? INT_MAX).

(** [int] arithmetic wraps to 32 bits, two's complement. *)
Definition wrap (z : Z) : Z := (z + 2 ^ 31) mod 2 ^ 32 - 2 ^ 31.

(** An [int] converted to the 64-bit unsigned [std::size_t], as the usual
    arithmetic conversions do when the two are compared. *)
Definition to_size_t (z : Z) : Z := z mod 2 ^ 64.

End Int.

(** ** [double] *)

Module Double.

(** The operations the two managers use on [double]. [of_Z] converts a
    [std::size_t] or an integral literal. [to_int] is [static_cast<int>]:
    truncation toward zero, [None] where the standard leaves the
    conversion undefined (not a number, infinite, or outside the range of
    [int]). *)
Class Ops (D : Type) := {
  of_Z : Z -> D;
  add : D -> D -> D;
  sub : D -> D -> D;
  mul : D -> D -> D;
  div : D -> D -> D;
  opp : D -> D;
  ltb : D -> D -> bool;
  leb : D -> D -> bool;
  to_int : D -> option Z
}.

(** The integer part of a binary64 value given by sign, mantissa and
    exponent. *)
Definition SFtrunc (x : spec_float) : option Z :=
  match x with
  | S754_zero _ => Some 0
  | S754_finite s m e => Some (cond_Zopp s (Z.shiftl (Zpos m) e))
  | S754_infinity _ | S754_nan => None
  end.

Definition float_to_int (x : float) : option Z :=
  match SFtrunc (Prim2SF x) with
  | Some z => if Int.in_range z then Some z else None
  | None => None
  end.

#[global] Instance binary64 : Ops float := {
  of_Z z := PrimFloat.of_uint63 (Uint63.of_Z z);
  add := PrimFloat.add;
  sub := PrimFloat.sub;
  mul := PrimFloat.mul;
  div := PrimFloat.div;
  opp := PrimFloat.opp;
  ltb := PrimFloat.ltb;
  leb := PrimFloat.leb;
  to_int := float_to_int
}.

(** [std::max(a, b)] is [(a < b) ? b : a]. *)
Definition max {D} `{Ops D} (a b : D) : D := if ltb a b then b else a.

(** [static_cast<double>] of an [int], and an [int] converted to [double]
    by the usual arithmetic conversions. *)
Definition of_int {D} `{Ops D} (z : Z) : D :=
  if (z <? 0)%Z then opp (of_Z (- z)) else of_Z z.

(** [==] and [std::abs] on [double]. *)
Class Tests (D : Type) := {
  eqb : D -> D -> bool;
  abs : D -> D
}.

#[global] Instance binary64_tests : Tests float := {
  eqb := PrimFloat.eqb;
  abs := PrimFloat.abs
}.

End Double.

Declare Scope double_scope.
Delimit Scope double_scope with D.
Notation "x + y" := (Double.add x y) : double_scope.
Notation "x - y" := (Double.sub x y) : double_scope.
Notation "x * y" := (Double.mul x y) : double_scope.
Notation "x / y" := (Double.div x y) : double_scope.
Notation "- x" := (Double.opp x) : double_scope.
Notation "x <? y" := (Double.ltb x y) : double_scope.
Notation "x <=? y" := (Double.leb x y) : double_scope.
Notation "x >? y" := (Double.ltb y x) : double_scope.
Notation "0" := (Double.of_Z 0) : double_scope.
Notation "1" := (Double.of_Z 1) : double_scope.

(** ** [Common.h] *)

Inductive OrderType := MARKET | LIMIT | STOP | STOP_LIMIT.
Inductive OrderSide := BUY | SELL.
Inductive OrderStatus := PENDING | SUBMITTED | FILLED | CANCELLED | REJECTED.

#[global] Instance OrderType_eq_dec : EqDecision OrderType.
Proof. solve_decision. Defined.
#[global] Instance OrderStatus_eq_dec : EqDecision OrderStatus.
Proof. solve_decision. Defined.

(** [struct Order]; [timestamp] is a point of [system_clock], in ticks. *)
Record Order (D : Type) := mkOrder {
  orderId : Z;
  symbol : string;
  type : OrderType;
  side : OrderSide;
  quantity : D;
  price : D;
  stopPrice : D;
  status : OrderStatus;
  timestamp : Z
}.
Arguments mkOrder {D}.
Arguments orderId {D}.
Arguments symbol {D}.
Arguments type {D}.
Arguments side {D}.
Arguments quantity {D}.
Arguments price {D}.
Arguments stopPrice {D}.
Arguments status {D}.
Arguments timestamp {D}.

(** [order.orderId = id] and [order.status = s] on a record. *)
Definition set_orderId {D} (o : Order D) (id : Z) : Order D :=
  mkOrder id (symbol o) (type o) (side o) (quantity o) (price o)
          (stopPrice o) (status o) (timestamp o).

Definition set_status {D} (o : Order D) (s : OrderStatus) : Order D :=
  mkOrder (orderId o) (symbol o) (type o) (side o) (quantity o) (price o)
          (stopPrice o) s (timestamp o).

(** [struct Position]. *)
Record Position (D : Type) := mkPosition {
  pos_symbol : string;
  pos_quantity : D;
  averagePrice : D;
  marketValue : D;
  unrealizedPnL : D;
  realizedPnL : D
}.
Arguments mkPosition {D}.
Arguments pos_symbol {D}.
Arguments marketValue {D}.
Arguments unrealizedPnL {D}.
Arguments realizedPnL {D}.

(** ** Events of one call, in program order *)

(** Taking and releasing the mutex of a table, an access to the table, and
    a call into the trading client. *)
Inductive Event := EvLock | EvUnlock | EvBook | EvVenue.

#[global] Instance Event_eq_dec : EqDecision Event.
Proof. solve_decision. Defined.

(** [venue_outside held es]: no call into the client between a lock and
    its unlock; [held] says whether the mutex is taken when [es] starts. *)
Fixpoint venue_outside (held : bool) (es : list Event) : bool :=
  match es with
  | [] => true
  | EvLock :: es => venue_outside true es
  | EvUnlock :: es => venue_outside false es
  | EvBook :: es => venue_outside held es
  | EvVenue :: es => negb held && venue_outside held es
  end.

(** [book_inside held es]: every access to the table happens with the
    mutex taken, the mutex is never taken twice, and it is free at the
    end. *)
Fixpoint book_inside (held : bool) (es : list Event) : bool :=
  match es with
  | [] => negb held
  | EvLock :: es => negb held && book_inside true es
  | EvUnlock :: es => held && book_inside false es
  | EvBook :: es => held && book_inside held es
  | EvVenue :: es => book_inside held es
  end.

(** [venue_first es]: every call into the client comes before the first
    lock. *)
Fixpoint venue_first (es : list Event) : bool :=
  match es with
  | [] => true
  | EvLock :: es => forallb (fun e => negb (bool_decide (e = EvVenue))) es
  | _ :: es => venue_first es
  end.

(** ** [TradingClient] *)

Module TradingClient.

(** The three calls the order manager makes, on a client in state [C]. *)
Class Api (D C : Type) := {
  placeOrder : Order D -> C -> Z * C;
  cancelOrder : Z -> C -> bool * C;
  modifyOrder : Z -> Order D -> C -> bool * C
}.

(** [TradingClient::Impl]: the connection flag and the function-local
    [static int nextOrderId] of [placeOrder]. *)
Record Impl := mkImpl { connected_ : bool; nextOrderId : Z }.

Definition init : Impl := mkImpl false 1000.

Definition connect (c : Impl) : bool * Impl :=
  (true, mkImpl true (nextOrderId c)).

Definition disconnect (c : Impl) : Impl :=
  if connected_ c then mkImpl false (nextOrderId c) else c.

Definition Impl_placeOrder {D} (order : Order D) (c : Impl) : Z * Impl :=
  if negb (connected_ c) then (-1, c)
  else
    let orderId := Int.wrap (nextOrderId c + 1) in
    (orderId, mkImpl (connected_ c) orderId).

Definition Impl_cancelOrder (orderId : Z) (c : Impl) : bool * Impl :=
  if negb (connected_ c) then (false, c) else (true, c).

Definition Impl_modifyOrder {D} (orderId : Z) (newOrder : Order D) (c : Impl)
  : bool * Impl :=
  if negb (connected_ c) then (false, c) else (true, c).

#[global] Instance simulated {D} : Api D Impl := {
  placeOrder := Impl_placeOrder;
  cancelOrder := Impl_cancelOrder;
  modifyOrder := Impl_modifyOrder
}.

End TradingClient.

(** ** [OrderManager] *)

Module OrderManager.
Section WithClient.
Context {D : Type} `{Double.Ops D} {C : Type} `{TradingClient.Api D C}.

Local Open Scope double_scope.

(** The data members of [OrderManager] ([client_] is in the world below). *)
Record t := mk {
  orders_ : gmap Z (Order D);
  maxPositionSize_ : D;
  maxDailyLoss_ : D;
  dailyPnL_ : D;
  totalTrades_ : Z;
  winningTrades_ : Z
}.

Definition set_orders (m : t) (os : gmap Z (Order D)) : t :=
  mk os (maxPositionSize_ m) (maxDailyLoss_ m) (dailyPnL_ m)
     (totalTrades_ m) (winningTrades_ m).

(** What a member function runs in: the manager, the client it shares,
    the system clock, and the events so far. *)
Record World := mkWorld {
  self : t;
  client_ : C;
  clock : Z;
  events : list Event
}.

Definition M (A : Type) : Type := World -> A * World.

#[local] Instance M_ret : MRet M := fun A a w => (a, w).
#[local] Instance M_bind : MBind M :=
  fun A B f m w => let '(a, w') := m w in f a w'.
#[local] Instance M_fmap : FMap M :=
  fun A B f m w => let '(a, w') := m w in (f a, w').

Definition emit (e : Event) : M unit :=
  fun w => (tt, mkWorld (self w) (client_ w) (clock w) (events w ++ [e])).

(** [std::lock_guard<std::mutex> lock(ordersMutex_)] and the end of its
    scope. *)
Definition lock_guard : M unit := emit EvLock.
Definition unlock : M unit := emit EvUnlock.

Definition get_self : M t := fun w => (self w, w).

Definition put_self (m : t) : M unit :=
  fun w => (tt, mkWorld m (client_ w) (clock w) (events w)).

Definition system_clock_now : M Z := fun w => (clock w, w).

(** [orders_.find(orderId)] *)
Definition orders_find (orderId : Z) : M (option (Order D)) :=
  emit EvBook ;; m ← get_self; mret (orders_ m !! orderId).

(** [orders_[orderId] = order], and an assignment through the iterator
    [find] returned. *)
Definition orders_store (orderId : Z) (order : Order D) : M unit :=
  emit EvBook ;; m ← get_self;
  put_self (set_orders m (<[orderId := order]> (orders_ m))).

Definition on_client {A} (f : C -> A * C) : M A :=
  fun w => let '(a, c) := f (client_ w) in
           (a, mkWorld (self w) c (clock w) (events w)).

(** A call [client_->f(...)]. *)
Definition call_client {A} (f : C -> A * C) : M A :=
  emit EvVenue ;; on_client f.

(** [OrderManager::OrderManager] *)
Definition init : t :=
  mk ∅ (Double.of_Z 10000) (Double.of_Z 1000) 0 0%Z 0%Z.

Definition checkRiskLimits (m : t) (order : Order D) : bool :=
  let orderValue := quantity order * price order in
  if orderValue >? maxPositionSize_ m then false
  else if dailyPnL_ m <? - maxDailyLoss_ m then false
  else true.

Definition validateOrder (m : t) (order : Order D) : bool :=
  if bool_decide (symbol order = EmptyString) then false
  else if quantity order <=? 0 then false
  else if bool_decide (type order = LIMIT) && (price order <=? 0) then false
  else if bool_decide (type order = STOP) && (stopPrice order <=? 0) then false
  else if bool_decide (type order = STOP_LIMIT)
          && ((price order <=? 0) || (stopPrice order <=? 0)) then false
  else checkRiskLimits m order.

(** The tail the four placement functions share: validate, submit, and
    record the order under the id the client returned. *)
Definition submit (order : Order D) : M Z :=
  m ← get_self;
  if negb (validateOrder m order) then mret (-1)%Z
  else
    orderId ← call_client (TradingClient.placeOrder order);
    (if (0 <? orderId)%Z then
       lock_guard ;;
       orders_store orderId (set_orderId order orderId) ;;
       unlock
     else mret tt) ;;
    mret orderId.

Definition placeMarketOrder (symbol : string) (side : OrderSide)
           (quantity : D) : M Z :=
  now ← system_clock_now;
  submit (mkOrder 0%Z symbol MARKET side quantity 0 0 PENDING now).

Definition placeLimitOrder (symbol : string) (side : OrderSide)
           (quantity price : D) : M Z :=
  now ← system_clock_now;
  submit (mkOrder 0%Z symbol LIMIT side quantity price 0 PENDING now).

Definition placeStopOrder (symbol : string) (side : OrderSide)
           (quantity stopPrice : D) : M Z :=
  now ← system_clock_now;
  submit (mkOrder 0%Z symbol STOP side quantity 0 stopPrice PENDING now).

Definition placeStopLimitOrder (symbol : string) (side : OrderSide)
           (quantity limitPrice stopPrice : D) : M Z :=
  now ← system_clock_now;
  submit (mkOrder 0%Z symbol STOP_LIMIT side quantity limitPrice stopPrice
                  PENDING now).

Definition cancelOrder (orderId : Z) : M bool :=
  lock_guard ;;
  it ← orders_find orderId;
  match it with
  | None => unlock ;; mret false
  | Some order =>
      result ← call_client (TradingClient.cancelOrder orderId);
      (if result : bool
       then orders_store orderId (set_status order CANCELLED)
       else mret tt) ;;
      unlock ;; mret result
  end.

Definition modifyOrder (orderId : Z) (newOrder : Order D) : M bool :=
  lock_guard ;;
  it ← orders_find orderId;
  match it with
  | None => unlock ;; mret false
  | Some _ =>
      m ← get_self;
      if negb (validateOrder m newOrder) then unlock ;; mret false
      else
        result ← call_client (TradingClient.modifyOrder orderId newOrder);
        (if result : bool
         then orders_store orderId (set_orderId newOrder orderId)
         else mret tt) ;;
        unlock ;; mret result
  end.

(** [getOrder]; the [type] and [side] of the [Order()] it returns for an
    unknown id are not initialised by the constructor and are passed in. *)
Definition getOrder (ty : OrderType) (sd : OrderSide) (orderId : Z)
  : M (Order D) :=
  lock_guard ;;
  it ← orders_find orderId;
  unlock ;;
  mret (default (mkOrder 0%Z EmptyString ty sd 0 0 0 PENDING 0%Z) it).

(** The loops over [orders_] run in the order of [map_to_list]; an
    [unordered_map] promises none. *)
Definition orders_scan : M (list (Order D)) :=
  emit EvBook ;; m ← get_self; mret (snd <$> map_to_list (orders_ m)).

Definition getAllOrders : M (list (Order D)) :=
  lock_guard ;;
  result ← orders_scan;
  unlock ;; mret result.

Definition getOrdersBySymbol (symbol' : string) : M (list (Order D)) :=
  lock_guard ;;
  all ← orders_scan;
  unlock ;;
  mret (filter (fun o => symbol o = symbol') all).

Definition getOrdersByStatus (status' : OrderStatus) : M (list (Order D)) :=
  lock_guard ;;
  all ← orders_scan;
  unlock ;;
  mret (filter (fun o => status o = status') all).

Definition setMaxPositionSize (maxSize : D) : M unit :=
  m ← get_self;
  put_self (mk (orders_ m) maxSize (maxDailyLoss_ m) (dailyPnL_ m)
               (totalTrades_ m) (winningTrades_ m)).

Definition setMaxDailyLoss (maxLoss : D) : M unit :=
  m ← get_self;
  put_self (mk (orders_ m) (maxPositionSize_ m) maxLoss (dailyPnL_ m)
               (totalTrades_ m) (winningTrades_ m)).

Definition updateOrderStatus (orderId : Z) (status : OrderStatus) : M unit :=
  lock_guard ;;
  it ← orders_find orderId;
  match it with
  | Some order =>
      orders_store orderId (set_status order status) ;;
      (if bool_decide (status = FILLED) then
         m ← get_self;
         put_self (mk (orders_ m) (maxPositionSize_ m) (maxDailyLoss_ m)
                      (dailyPnL_ m) (Int.wrap (totalTrades_ m + 1))
                      (winningTrades_ m))
       else mret tt) ;;
      unlock
  | None => unlock
  end.

(** The calls that can reach the order book. *)
Inductive Call :=
| PlaceMarket (symbol : string) (side : OrderSide) (quantity : D)
| PlaceLimit (symbol : string) (side : OrderSide) (quantity price : D)
| PlaceStop (symbol : string) (side : OrderSide) (quantity stopPrice : D)
| PlaceStopLimit (symbol : string) (side : OrderSide)
                 (quantity limitPrice stopPrice : D)
| Cancel (orderId : Z)
| Modify (orderId : Z) (newOrder : Order D)
| UpdateStatus (orderId : Z) (status : OrderStatus)
| GetOrder (type : OrderType) (side : OrderSide) (orderId : Z)
| GetAllOrders
| GetOrdersBySymbol (symbol : string)
| GetOrdersByStatus (status : OrderStatus)
| SetMaxPositionSize (maxSize : D)
| SetMaxDailyLoss (maxLoss : D).

(** What a call returns: an order id, a flag, orders, or nothing. *)
Inductive Result :=
| RId (orderId : Z)
| RBool (b : bool)
| ROrders (orders : list (Order D))
| RVoid.

Definition run (c : Call) : M Result :=
  match c with
  | PlaceMarket s sd q => RId <$> placeMarketOrder s sd q
  | PlaceLimit s sd q p => RId <$> placeLimitOrder s sd q p
  | PlaceStop s sd q sp => RId <$> placeStopOrder s sd q sp
  | PlaceStopLimit s sd q p sp => RId <$> placeStopLimitOrder s sd q p sp
  | Cancel id => RBool <$> cancelOrder id
  | Modify id o => RBool <$> modifyOrder id o
  | UpdateStatus id s => updateOrderStatus id s ;; mret RVoid
  | GetOrder ty sd id => (fun o => ROrders [o]) <$> getOrder ty sd id
  | GetAllOrders => ROrders <$> getAllOrders
  | GetOrdersBySymbol s => ROrders <$> getOrdersBySymbol s
  | GetOrdersByStatus s => ROrders <$> getOrdersByStatus s
  | SetMaxPositionSize v => setMaxPositionSize v ;; mret RVoid
  | SetMaxDailyLoss v => setMaxDailyLoss v ;; mret RVoid
  end.

(** The world after a sequence of calls. *)
Definition run_all (cs : list Call) (w : World) : World :=
  fold_left (fun w c => snd (run c w)) cs w.

(** *** Statistics *)

Definition getTotalPnL (m : t) : D := 0.

Definition getDailyPnL (m : t) : D := dailyPnL_ m.

Definition getTotalTrades (m : t) : Z := totalTrades_ m.

Definition getWinRate (m : t) : D :=
  if (totalTrades_ m =? 0)%Z then 0
  else Double.of_int (winningTrades_ m) / Double.of_int (totalTrades_ m).

End WithClient.
Arguments t D : clear implicits.
Arguments World D C : clear implicits.
Arguments Call D : clear implicits.
Arguments Result D : clear implicits.
End OrderManager.

(** ** [PortfolioManager] *)

Module PortfolioManager.
Section WithDouble.
Context {D : Type} `{Double.Ops D}.

Local Open Scope double_scope.

Record t := mk {
  positions_ : gmap string (Position D);
  dailyReturns_ : list D;
  initialPortfolioValue_ : D;
  maxPortfolioValue_ : D
}.

(** [PortfolioManager::PortfolioManager] *)
Definition init : t := mk ∅ [] (Double.of_Z 100000) (Double.of_Z 100000).

Definition set_dailyReturns (m : t) (rs : list D) : t :=
  mk (positions_ m) rs (initialPortfolioValue_ m) (maxPortfolioValue_ m).

Definition set_positions (m : t) (ps : gmap string (Position D)) : t :=
  mk ps (dailyReturns_ m) (initialPortfolioValue_ m) (maxPortfolioValue_ m).

(** *** The daily returns *)

(** [push_back], then [erase(begin())] once the size exceeds 252. *)
Definition recordDailyReturn (returnValue : D) (m : t) : t :=
  let rs := dailyReturns_ m ++ [returnValue] in
  set_dailyReturns m
    (if (252 <? Z.of_nat (length rs))%Z then tail rs else rs).

Definition getDailyReturns (m : t) : list D := dailyReturns_ m.

(** One turn of the loop of [getMaxDrawdown] on [(maxDrawdown, peak)]. *)
Definition drawdown_step (acc : D * D) (dailyReturn : D) : D * D :=
  let '(maxDrawdown, peak) := acc in
  let peak := Double.max peak (peak * (1 + dailyReturn)) in
  let drawdown := (peak - peak * (1 + dailyReturn)) / peak in
  (Double.max maxDrawdown drawdown, peak).

Definition getMaxDrawdown (m : t) : D :=
  match dailyReturns_ m with
  | [] => 0
  | _ => fst (fold_left drawdown_step (dailyReturns_ m)
                        (0, initialPortfolioValue_ m))
  end.

(** [std::sort] with [operator<]. On values without NaN the standard
    fixes its result up to the order of elements that compare equivalent
    ([+0.0] and [-0.0]); insertion sort gives one such result and stands
    for it. With a NaN among the values [operator<] is no strict weak
    order and the standard leaves the result open: what is proved of the
    sorted values assumes there is none. *)
Fixpoint sort_insert (x : D) (l : list D) : list D :=
  match l with
  | [] => [x]
  | y :: l' => if x <? y then x :: l else y :: sort_insert x l'
  end.

Definition std_sort (l : list D) : list D := foldr sort_insert [] l.

(** The index [getVaR] reads at, from the [int] the cast gave:
    [index >= sortedReturns.size()] compares as [std::size_t]. *)
Definition clamp_index (size index : Z) : Z :=
  if (size <=? Int.to_size_t index)%Z then Int.wrap (size - 1) else index.

(** [getVaR]; [None] where the cast to [int] is undefined or
    [operator[]] would read outside the vector. *)
Definition getVaR (confidenceLevel : D) (m : t) : option D :=
  match dailyReturns_ m with
  | [] => Some 0
  | _ =>
      let sortedReturns := std_sort (dailyReturns_ m) in
      let size := Z.of_nat (length sortedReturns) in
      index ← Double.to_int ((1 - confidenceLevel) * Double.of_Z size);
      let index := clamp_index size index in
      r ← sortedReturns !! Z.to_nat (Int.to_size_t index);
      Some (- r)
  end.

(** *** The position book *)

Definition M (A : Type) : Type := t * list Event -> A * (t * list Event).

#[local] Instance M_ret : MRet M := fun A a w => (a, w).
#[local] Instance M_bind : MBind M :=
  fun A B f m w => let '(a, w') := m w in f a w'.

Definition emit (e : Event) : M unit := fun w => (tt, (fst w, snd w ++ [e])).

(** [std::lock_guard<std::mutex> lock(positionsMutex_)] and the end of
    its scope. *)
Definition lock_guard : M unit := emit EvLock.
Definition unlock : M unit := emit EvUnlock.

(** A read of [positions_]. *)
Definition get_self : M t := fun w => (fst w, w).
Definition put_self (m : t) : M unit := fun w => (tt, (m, snd w)).

Definition positions_read : M (gmap string (Position D)) :=
  emit EvBook ;; m ← get_self; mret (positions_ m).

(** [positions_[symbol] = p] *)
Definition positions_store (symbol : string) (p : Position D) : M unit :=
  emit EvBook ;; m ← get_self;
  put_self (set_positions m (<[symbol := p]> (positions_ m))).

Definition updatePosition (position : Position D) : M unit :=
  lock_guard ;;
  positions_store (pos_symbol position) position ;;
  unlock.

Definition getPosition (symbol : string) : M (Position D) :=
  lock_guard ;;
  ps ← positions_read;
  unlock ;;
  mret (default (mkPosition EmptyString 0 0 0 0 0) (ps !! symbol)).

(** The loops over [positions_] run in the order of [map_to_list]; an
    [unordered_map] promises none. *)
Definition getAllPositions : M (list (Position D)) :=
  lock_guard ;;
  ps ← positions_read;
  unlock ;;
  mret (snd <$> map_to_list ps).

Definition getTotalPortfolioValue : M D :=
  lock_guard ;;
  ps ← positions_read;
  unlock ;;
  mret (fold_left (fun totalValue p => totalValue + marketValue p)
                  (snd <$> map_to_list ps) 0).

Definition getTotalUnrealizedPnL : M D :=
  lock_guard ;;
  ps ← positions_read;
  unlock ;;
  mret (fold_left (fun total p => total + unrealizedPnL p)
                  (snd <$> map_to_list ps) 0).

Definition getTotalRealizedPnL : M D :=
  lock_guard ;;
  ps ← positions_read;
  unlock ;;
  mret (fold_left (fun total p => total + realizedPnL p)
                  (snd <$> map_to_list ps) 0).

(** The calls that reach the position book, but for [getAssetAllocation]
    and the functions that call it, which come below. *)
Inductive Call :=
| UpdatePosition (position : Position D)
| GetPosition (symbol : string)
| GetAllPositions
| GetTotalPortfolioValue
| GetTotalUnrealizedPnL
| GetTotalRealizedPnL.

Definition run (c : Call) : M unit :=
  match c with
  | UpdatePosition p => updatePosition p
  | GetPosition s => getPosition s ;; mret tt
  | GetAllPositions => getAllPositions ;; mret tt
  | GetTotalPortfolioValue => getTotalPortfolioValue ;; mret tt
  | GetTotalUnrealizedPnL => getTotalUnrealizedPnL ;; mret tt
  | GetTotalRealizedPnL => getTotalRealizedPnL ;; mret tt
  end.

(** [std::accumulate] from [0.0], over the size. *)
Definition getAverageDailyReturn (m : t) : D :=
  match dailyReturns_ m with
  | [] => 0
  | _ =>
      fold_left Double.add (dailyReturns_ m) 0
      / Double.of_Z (Z.of_nat (length (dailyReturns_ m)))
  end.

(** *** Functions that go through [getTotalPortfolioValue] *)

Context `{Double.Tests D}.

Definition getPortfolioReturn : M D :=
  currentValue ← getTotalPortfolioValue;
  m ← get_self;
  if Double.eqb (initialPortfolioValue_ m) 0 then mret 0
  else mret ((currentValue - initialPortfolioValue_ m)
             / initialPortfolioValue_ m).

Definition calculatePositionWeight (position : Position D) : M D :=
  totalValue ← getTotalPortfolioValue;
  if Double.eqb totalValue 0 then mret 0
  else mret (marketValue position / totalValue).

Definition getCashAllocation : M D :=
  let cashBalance := Double.of_Z 25000 in
  portfolioValue ← getTotalPortfolioValue;
  let totalValue := portfolioValue + cashBalance in
  if Double.eqb totalValue 0 then mret 0
  else mret (cashBalance / totalValue).

(** [getAssetAllocation] declares its [lock_guard] and then calls
    [getTotalPortfolioValue], which declares one on the same mutex; the
    events go on in program order. *)
Definition getAssetAllocation : M (gmap string D) :=
  lock_guard ;;
  totalValue ← getTotalPortfolioValue;
  if Double.eqb totalValue 0 then unlock ;; mret ∅
  else
    ps ← positions_read;
    unlock ;;
    mret ((fun p => marketValue p / totalValue) <$> ps).

(** The loop returns true at the first target off by more than the
    threshold. *)
Definition needsRebalancing (targetAllocation : gmap string D)
           (threshold : D) : M bool :=
  currentAllocation ← getAssetAllocation;
  mret (existsb
          (fun target =>
             let currentWeight :=
               default 0 (currentAllocation !! fst target) in
             Double.abs (currentWeight - snd target) >? threshold)
          (map_to_list targetAllocation)).

(** [now symbol] is the clock when the order for [symbol] is built. *)
Definition generateRebalancingOrders (now : string -> Z)
           (targetAllocation : gmap string D) : M (list (Order D)) :=
  currentAllocation ← getAssetAllocation;
  totalValue ← getTotalPortfolioValue;
  mret (omap
          (fun target =>
             let targetValue := totalValue * snd target in
             let currentValue :=
               match currentAllocation !! fst target with
               | Some weight => weight * totalValue
               | None => 0
               end in
             let difference := targetValue - currentValue in
             if Double.abs difference >? Double.of_Z 100 then
               Some (mkOrder 0%Z (fst target) MARKET
                             (if difference >? 0 then BUY else SELL)
                             (Double.abs difference / Double.of_Z 100)
                             0 0 PENDING (now (fst target)))
             else None)
          (map_to_list targetAllocation)).

End WithDouble.
Arguments t D : clear implicits.
Arguments Call D : clear implicits.
End PortfolioManager.

(** * Specification *)

Section OrderSpec.
Context {D : Type} `{Double.Ops D} {C : Type} `{TradingClient.Api D C}.

Local Open Scope double_scope.

(** The order a placement call builds when the clock reads [now]. *)
Definition placement (c : OrderManager.Call D) (now : Z) : option (Order D) :=
  match c with
  | OrderManager.PlaceMarket s sd q =>
      Some (mkOrder 0%Z s MARKET sd q 0 0 PENDING now)
  | OrderManager.PlaceLimit s sd q p =>
      Some (mkOrder 0%Z s LIMIT sd q p 0 PENDING now)
  | OrderManager.PlaceStop s sd q sp =>
      Some (mkOrder 0%Z s STOP sd q 0 sp PENDING now)
  | OrderManager.PlaceStopLimit s sd q p sp =>
      Some (mkOrder 0%Z s STOP_LIMIT sd q p sp PENDING now)
  | _ => None
  end.

(** An order that is malformed: empty symbol, quantity not above zero, a
    limit price not above zero on a limit or stop-limit order, a stop
    price not above zero on a stop or stop-limit order. *)
Definition malformed (o : Order D) : Prop :=
  symbol o = EmptyString
  ∨ (quantity o <=? 0) = true
  ∨ ((type o = LIMIT ∨ type o = STOP_LIMIT) ∧ (price o <=? 0) = true)
  ∨ ((type o = STOP ∨ type o = STOP_LIMIT) ∧ (stopPrice o <=? 0) = true).

(** The worlds the calls reach from a fresh manager. *)
Inductive reachable : OrderManager.World D C -> Prop :=
| reach_init c now :
    reachable (OrderManager.mkWorld OrderManager.init c now [])
| reach_call w call :
    reachable w -> reachable (snd (OrderManager.run call w)).

(** The life cycle pending, submitted, then filled, cancelled or
    rejected. *)
Definition lifecycle (s s' : OrderStatus) : bool :=
  match s, s' with
  | PENDING, SUBMITTED
  | SUBMITTED, FILLED | SUBMITTED, CANCELLED | SUBMITTED, REJECTED => true
  | _, _ => false
  end.

(** Every change of a stored order's status follows the life cycle. *)
Definition follows_lifecycle : Prop :=
  ∀ w call id o o',
    reachable w ->
    OrderManager.orders_ (OrderManager.self w) !! id = Some o ->
    OrderManager.orders_ (OrderManager.self (snd (OrderManager.run call w)))
      !! id = Some o' ->
    status o' = status o ∨ lifecycle (status o) (status o') = true.

(** A successful [modifyOrder] keeps the stored status. *)
Definition modify_keeps_status : Prop :=
  ∀ w id newOrder o w',
    reachable w ->
    OrderManager.orders_ (OrderManager.self w) !! id = Some o ->
    OrderManager.modifyOrder id newOrder w = (true, w') ->
    status <$> OrderManager.orders_ (OrderManager.self w') !! id
    = Some (status o).

(** The status a call writes on the order stored under [id], if any,
    given what the call returned. *)
Definition status_written (call : OrderManager.Call D)
           (r : OrderManager.Result D) (id : Z) : option OrderStatus :=
  match call, r with
  | OrderManager.Cancel id', OrderManager.RBool true =>
      if bool_decide (id' = id) then Some CANCELLED else None
  | OrderManager.Modify id' newOrder, OrderManager.RBool true =>
      if bool_decide (id' = id) then Some (status newOrder) else None
  | OrderManager.UpdateStatus id' s, _ =>
      if bool_decide (id' = id) then Some s else None
  | (OrderManager.PlaceMarket _ _ _ | OrderManager.PlaceLimit _ _ _ _
     | OrderManager.PlaceStop _ _ _ _
     | OrderManager.PlaceStopLimit _ _ _ _ _), OrderManager.RId id' =>
      if bool_decide (id' = id) && (0 <? id')%Z then Some PENDING else None
  | _, _ => None
  end.

End OrderSpec.

Section ReturnsSpec.
Context {D : Type} `{Double.Ops D}.

(** The manager after [recordDailyReturn] was called on the values of
    [xs], first to last. *)
Definition record_all (xs : list D) (m : PortfolioManager.t D)
  : PortfolioManager.t D :=
  fold_left (fun m x => PortfolioManager.recordDailyReturn x m) xs m.

End ReturnsSpec.

(** [getMaxDrawdown] is zero after any recorded returns, on binary64. *)
Definition drawdown_always_zero : Prop :=
  ∀ xs : list float,
    PrimFloat.eqb
      (PortfolioManager.getMaxDrawdown (record_all xs PortfolioManager.init))
      0%float = true.

(** The value [getMaxDrawdown] measures on each day, first day first: the
    running peak is first raised to [peak * (1 + r)] if that is above it,
    and the day's value is [(peak - peak * (1 + r)) / peak] on the peak so
    updated. *)
Fixpoint day_losses (peak : float) (rs : list float) : list float :=
  match rs with
  | [] => []
  | r :: rs =>
      let value := (peak * (1 + r))%float in
      let peak := if PrimFloat.ltb peak value then value else peak in
      ((peak - peak * (1 + r)) / peak)%float :: day_losses peak rs
  end.

(** ** Locks *)

Section LockSpec.
Context {D : Type} `{Double.Ops D} {C : Type} `{TradingClient.Api D C}.

(** The events one call of the order manager adds to the log. *)
Definition events_of (call : OrderManager.Call D) (w : OrderManager.World D C)
  : list Event :=
  drop (length (OrderManager.events w))
       (OrderManager.events (snd (OrderManager.run call w))).

(** The events one call on the position book emits. *)
Definition position_events (call : PortfolioManager.Call D)
           (m : PortfolioManager.t D) : list Event :=
  snd (snd (PortfolioManager.run call (m, []))).

End LockSpec.

(** No call of the order manager calls the client while it holds the
    lock, and its client calls all come before it takes the lock. *)
Definition venue_never_under_lock : Prop :=
  ∀ (w : OrderManager.World float TradingClient.Impl) call,
    venue_outside false (events_of call w) = true
    ∧ venue_first (events_of call w) = true.

(** ** Binary64 values *)

(** A value between zero and [2 ^ k]: a zero, or a positive value with
    mantissa [m] and exponent [e] such that [m * 2 ^ e <= 2 ^ k]. *)
Definition within (k : Z) (x : spec_float) : Prop :=
  match x with
  | S754_zero _ => True
  | S754_finite false m e => e <= k ∧ Zpos m <= 2 ^ (k - e)
  | _ => False
  end.

(** [1.0] *)
Definition one64 : spec_float := S754_finite false 4503599627370496 (-52).

(** The largest integer not above a finite value. *)
Definition SFfloor (x : spec_float) : option Z :=
  match x with
  | S754_zero _ => Some 0
  | S754_finite s m e => Some (Z.shiftl (cond_Zopp s (Zpos m)) e)
  | S754_infinity _ | S754_nan => None
  end.

Definition floor_double (x : float) : option Z := SFfloor (Prim2SF x).

(** The rank [floor ((1 - confidenceLevel) * n)], clamped to the last
    index [n - 1]; the difference and the product are those of binary64. *)
Definition VaR_rank (confidenceLevel : float) (n : Z) : option Z :=
  k ← floor_double ((1 - confidenceLevel) * Double.of_Z n)%D;
  Some (Z.min k (n - 1)).

(** [a <= b] on binary64. *)
Definition le64 (a b : float) : Prop := PrimFloat.leb a b = true.

(** [getVaR] sorts every history that is not empty in ascending order
    and returns the negation of the element at the rank. *)
Definition VaR_of_every_history : Prop :=
  ∀ (c : float) (xs : list float),
    let m := record_all xs PortfolioManager.init in
    let rs := PortfolioManager.dailyReturns_ m in
    rs ≠ [] -> PrimFloat.leb 0 c = true -> PrimFloat.leb c 1 = true ->
    ∃ sorted k x,
      Permutation sorted rs ∧ Sorted le64 sorted
      ∧ VaR_rank c (Z.of_nat (length rs)) = Some k
      ∧ sorted !! Z.to_nat k = Some x
      ∧ PortfolioManager.getVaR c m = Some (- x)%float.

(** ** The books

    What holds of the order book, of the ids the simulated client issues
    and of the position book. *)

Section BookSpec.
Context {D : Type}.

(** Every order of the book is stored under its own id, and the ids are
    positive. *)
Definition book_keyed (orders : gmap Z (Order D)) : Prop :=
  ∀ id o, orders !! id = Some o -> orderId o = id ∧ 0 < id.

End BookSpec.

Section IdSpec.
Context {D : Type}.

(** No id of the book is above the counter of the simulated client. *)
Definition ids_issued (w : OrderManager.World D TradingClient.Impl) : Prop :=
  ∀ id o, OrderManager.orders_ (OrderManager.self w) !! id = Some o ->
          id <= TradingClient.nextOrderId (OrderManager.client_ w).

End IdSpec.

Section PositionSpec.
Context {D : Type} `{Double.Ops D}.

(** Every position of the book is stored under its own symbol. *)
Definition positions_keyed (ps : gmap string (Position D)) : Prop :=
  ∀ s p, ps !! s = Some p -> pos_symbol p = s.

(** The manager and the log after the calls of [cs], first to last. *)
Definition run_calls (cs : list (PortfolioManager.Call D))
           (w : PortfolioManager.t D * list Event)
  : PortfolioManager.t D * list Event :=
  fold_left (fun w c => snd (PortfolioManager.run c w)) cs w.

(** The events a function of the portfolio manager emits. *)
Definition emitted {A} (f : PortfolioManager.M A) (m : PortfolioManager.t D)
  : list Event :=
  snd (snd (f (m, []))).

End PositionSpec.

(** ** Concrete worlds

    The manager on binary64 with the simulated client of
    [TradingClient.cpp]. *)

Module Desk.

(** A fresh manager on a connected client. *)
Definition fresh : OrderManager.World float TradingClient.Impl :=
  OrderManager.mkWorld OrderManager.init (TradingClient.mkImpl true 1000) 0 [].

(** After a limit buy of 10 "X" at 50, stored under the id 1001. *)
Definition placed : OrderManager.World float TradingClient.Impl :=
  snd (OrderManager.run (OrderManager.PlaceLimit "X" BUY 10%float 50%float)
                        fresh).

(** After that order was cancelled. *)
Definition cancelled : OrderManager.World float TradingClient.Impl :=
  snd (OrderManager.run (OrderManager.Cancel 1001) placed).

(** A replacement as a caller builds it from [Order()]: it carries the
    status pending, and here another id. *)
Definition replacement : Order float :=
  mkOrder 7 "X" LIMIT BUY 20%float 40%float 0%float PENDING 0.

(** Five recorded returns, and the portfolio manager that holds them. *)
Definition history : list float :=
  [-0.05; -0.02; 0.01; 0.03; 0.04]%float.

Definition portfolio : PortfolioManager.t float :=
  record_all history PortfolioManager.init.

End Desk.

(** * The order book *)

Section OrderBook.
Context {D : Type} `{Double.Ops D} {C : Type} `{TradingClient.Api D C}.

Local Open Scope double_scope.

Implicit Types (w : OrderManager.World D C) (o : Order D).

Lemma malformed_rejected (m : OrderManager.t D) o :
  malformed o -> OrderManager.validateOrder m o = false.
Proof.
  unfold malformed, OrderManager.validateOrder.
  intros [Hs | [Hq | [[Ht Hp] | [Ht Hp]]]].
  - rewrite bool_decide_eq_true_2; done.
  - case_bool_decide; [done |]. by rewrite Hq.
  - case_bool_decide; [done |]. destruct (quantity o <=? 0); [done |].
    rewrite Hp. destruct Ht as [-> | ->]; simpl; done.
  - case_bool_decide; [done |]. destruct (quantity o <=? 0); [done |].
    rewrite Hp. destruct Ht as [-> | ->]; simpl.
    + by destruct (price o <=? 0).
    + by destruct (price o <=? 0).
Qed.

(** What [submit] does, case by case. *)
Lemma submit_invalid o w :
  OrderManager.validateOrder (OrderManager.self w) o = false ->
  OrderManager.submit o w = ((-1)%Z, w).
Proof.
  intros Hv. unfold OrderManager.submit, mbind, OrderManager.M_bind,
    OrderManager.get_self. simpl. by rewrite Hv.
Qed.

Lemma submit_valid o w :
  OrderManager.validateOrder (OrderManager.self w) o = true ->
  OrderManager.submit o w =
  let '(id, c) := TradingClient.placeOrder o (OrderManager.client_ w) in
  (id,
   if (0 <? id)%Z then
     OrderManager.mkWorld
       (OrderManager.set_orders (OrderManager.self w)
          (<[id := set_orderId o id]>
             (OrderManager.orders_ (OrderManager.self w))))
       c (OrderManager.clock w)
       (OrderManager.events w ++ [EvVenue; EvLock; EvBook; EvUnlock])
   else
     OrderManager.mkWorld (OrderManager.self w) c (OrderManager.clock w)
       (OrderManager.events w ++ [EvVenue])).
Proof.
  intros Hv. unfold OrderManager.submit, mbind, OrderManager.M_bind,
    OrderManager.get_self. simpl. rewrite Hv. simpl.
  unfold OrderManager.call_client, OrderManager.on_client, mbind,
    OrderManager.M_bind. simpl.
  destruct (TradingClient.placeOrder o (OrderManager.client_ w)) as [id c].
  destruct (0 <? id)%Z; simpl; [| done].
  by rewrite <- !app_assoc.
Qed.

(** Each placement function is [submit] on the order it builds. *)
Lemma run_placement call w o :
  placement call (OrderManager.clock w) = Some o ->
  OrderManager.run call w =
  (OrderManager.RId (fst (OrderManager.submit o w)),
   snd (OrderManager.submit o w)).
Proof.
  destruct call; simpl; intros Ho; try discriminate;
    injection Ho as <-;
    unfold fmap, OrderManager.M_fmap, OrderManager.placeMarketOrder,
      OrderManager.placeLimitOrder, OrderManager.placeStopOrder,
      OrderManager.placeStopLimitOrder, mbind, OrderManager.M_bind,
      OrderManager.system_clock_now;
    match goal with |- context [OrderManager.submit ?o ?w] =>
      by destruct (OrderManager.submit o w) end.
Qed.

(** C1. A placement call ([placeMarketOrder], [placeLimitOrder],
    [placeStopOrder], [placeStopLimitOrder]) whose order is malformed or
    fails [validateOrder], or for which the client returns an id that is
    not positive, returns a value [<= 0] and leaves the manager, and so
    the order book, as it was. *)
Theorem placement_rejected call w o :
  placement call (OrderManager.clock w) = Some o ->
  malformed o
  ∨ OrderManager.validateOrder (OrderManager.self w) o = false
  ∨ (fst (TradingClient.placeOrder o (OrderManager.client_ w)) <= 0)%Z ->
  ∃ r, fst (OrderManager.run call w) = OrderManager.RId r
       ∧ (r <= 0)%Z
       ∧ OrderManager.self (snd (OrderManager.run call w))
         = OrderManager.self w.
Proof.
  intros Ho Hrej. rewrite (run_placement _ _ _ Ho). simpl.
  eexists; split; [reflexivity |].
  destruct (OrderManager.validateOrder (OrderManager.self w) o) eqn:Hv.
  - destruct Hrej as [Hm | [Hf | Hid]].
    + by rewrite (malformed_rejected _ _ Hm) in Hv.
    + discriminate.
    + rewrite (submit_valid _ _ Hv).
      destruct (TradingClient.placeOrder o (OrderManager.client_ w))
        as [id c]. simpl in *.
      destruct (0 <? id)%Z eqn:Hpos; [lia |]. done.
  - rewrite (submit_invalid _ _ Hv). simpl. split; [lia | done].
Qed.

Lemma cancelOrder_eq id w :
  OrderManager.cancelOrder id w =
  match OrderManager.orders_ (OrderManager.self w) !! id with
  | None =>
      (false,
       OrderManager.mkWorld (OrderManager.self w) (OrderManager.client_ w)
         (OrderManager.clock w)
         (OrderManager.events w ++ [EvLock; EvBook; EvUnlock]))
  | Some o =>
      let '(r, c) := TradingClient.cancelOrder id (OrderManager.client_ w) in
      (r,
       if r then
         OrderManager.mkWorld
           (OrderManager.set_orders (OrderManager.self w)
              (<[id := set_status o CANCELLED]>
                 (OrderManager.orders_ (OrderManager.self w))))
           c (OrderManager.clock w)
           (OrderManager.events w
              ++ [EvLock; EvBook; EvVenue; EvBook; EvUnlock])
       else
         OrderManager.mkWorld (OrderManager.self w) c (OrderManager.clock w)
           (OrderManager.events w ++ [EvLock; EvBook; EvVenue; EvUnlock]))
  end.
Proof.
  unfold OrderManager.cancelOrder, OrderManager.orders_find,
    OrderManager.call_client, OrderManager.on_client, mbind,
    OrderManager.M_bind, OrderManager.get_self. simpl.
  destruct (OrderManager.orders_ (OrderManager.self w) !! id) as [o |];
    simpl.
  - destruct (TradingClient.cancelOrder id (OrderManager.client_ w))
      as [[] c]; simpl; by rewrite <- !app_assoc.
  - by rewrite <- !app_assoc.
Qed.

Lemma modifyOrder_eq id newOrder w :
  OrderManager.modifyOrder id newOrder w =
  match OrderManager.orders_ (OrderManager.self w) !! id with
  | None =>
      (false,
       OrderManager.mkWorld (OrderManager.self w) (OrderManager.client_ w)
         (OrderManager.clock w)
         (OrderManager.events w ++ [EvLock; EvBook; EvUnlock]))
  | Some _ =>
      if OrderManager.validateOrder (OrderManager.self w) newOrder then
        let '(r, c) :=
          TradingClient.modifyOrder id newOrder (OrderManager.client_ w) in
        (r,
         if r then
           OrderManager.mkWorld
             (OrderManager.set_orders (OrderManager.self w)
                (<[id := set_orderId newOrder id]>
                   (OrderManager.orders_ (OrderManager.self w))))
             c (OrderManager.clock w)
             (OrderManager.events w
                ++ [EvLock; EvBook; EvVenue; EvBook; EvUnlock])
         else
           OrderManager.mkWorld (OrderManager.self w) c
             (OrderManager.clock w)
             (OrderManager.events w ++ [EvLock; EvBook; EvVenue; EvUnlock]))
      else
        (false,
         OrderManager.mkWorld (OrderManager.self w) (OrderManager.client_ w)
           (OrderManager.clock w)
           (OrderManager.events w ++ [EvLock; EvBook; EvUnlock]))
  end.
Proof.
  unfold OrderManager.modifyOrder, OrderManager.orders_find,
    OrderManager.call_client, OrderManager.on_client, mbind,
    OrderManager.M_bind, OrderManager.get_self. simpl.
  destruct (OrderManager.orders_ (OrderManager.self w) !! id) as [o |];
    simpl.
  - destruct (OrderManager.validateOrder (OrderManager.self w) newOrder);
      simpl.
    + destruct (TradingClient.modifyOrder id newOrder
                  (OrderManager.client_ w)) as [[] c];
        simpl; by rewrite <- !app_assoc.
    + by rewrite <- !app_assoc.
  - by rewrite <- !app_assoc.
Qed.

Lemma updateOrderStatus_orders id s w :
  OrderManager.orders_
    (OrderManager.self (snd (OrderManager.updateOrderStatus id s w))) =
  match OrderManager.orders_ (OrderManager.self w) !! id with
  | None => OrderManager.orders_ (OrderManager.self w)
  | Some o => <[id := set_status o s]>
                (OrderManager.orders_ (OrderManager.self w))
  end.
Proof.
  unfold OrderManager.updateOrderStatus, OrderManager.orders_find, mbind,
    OrderManager.M_bind, OrderManager.get_self. simpl.
  destruct (OrderManager.orders_ (OrderManager.self w) !! id) as [o |];
    simpl; [| done].
  by case_bool_decide.
Qed.

(** C5. When [orderId] is in the book, [newOrder] passes
    [validateOrder] and the client confirms the modification,
    [modifyOrder] returns true and stores [newOrder] under [orderId] with
    its id set to [orderId], whatever id [newOrder] carried; no other
    entry of the book changes. *)
Theorem modifyOrder_keeps_id id newOrder w old :
  OrderManager.orders_ (OrderManager.self w) !! id = Some old ->
  OrderManager.validateOrder (OrderManager.self w) newOrder = true ->
  fst (TradingClient.modifyOrder id newOrder (OrderManager.client_ w))
  = true ->
  fst (OrderManager.modifyOrder id newOrder w) = true
  ∧ OrderManager.orders_
      (OrderManager.self (snd (OrderManager.modifyOrder id newOrder w)))
    = <[id := mkOrder id (symbol newOrder) (type newOrder) (side newOrder)
                      (quantity newOrder) (price newOrder)
                      (stopPrice newOrder) (status newOrder)
                      (timestamp newOrder)]>
        (OrderManager.orders_ (OrderManager.self w)).
Proof.
  intros Hold Hv Hc. rewrite modifyOrder_eq, Hold, Hv.
  destruct (TradingClient.modifyOrder id newOrder (OrderManager.client_ w))
    as [r c]. simpl in Hc. subst r. done.
Qed.

Lemma M_fmap_run {A B} (f : A -> B) (m : OrderManager.M A) w :
  @fmap _ OrderManager.M_fmap _ _ f m w = (f (fst (m w)), snd (m w)).
Proof. unfold fmap, OrderManager.M_fmap. by destruct (m w). Qed.

Lemma placement_pending call now o :
  placement call now = Some o -> status o = PENDING.
Proof. destruct call; simpl; intros Ho; by inversion Ho. Qed.

Lemma run_placement_orders call w o :
  placement call (OrderManager.clock w) = Some o ->
  ∃ r, fst (OrderManager.run call w) = OrderManager.RId r
       ∧ OrderManager.orders_
           (OrderManager.self (snd (OrderManager.run call w)))
         = if (0 <? r)%Z
           then <[r := set_orderId o r]>
                  (OrderManager.orders_ (OrderManager.self w))
           else OrderManager.orders_ (OrderManager.self w).
Proof.
  intros Ho. rewrite (run_placement _ _ _ Ho). simpl.
  eexists; split; [reflexivity |].
  destruct (OrderManager.validateOrder (OrderManager.self w) o) eqn:Hv.
  - rewrite (submit_valid _ _ Hv).
    destruct (TradingClient.placeOrder o (OrderManager.client_ w))
      as [r c]. simpl. by destruct (0 <? r)%Z.
  - by rewrite (submit_invalid _ _ Hv).
Qed.

(** C4, as the code has it. The book holds no life cycle: an order
    stays in the book, and after one call its status is the one the call
    wrote, if it wrote one, and the status it had otherwise. A call
    writes on the order under [id]: cancelled, when it is [cancelOrder]
    on [id] and the client confirmed; the status [newOrder] carries, when
    it is [modifyOrder] on [id] and the client confirmed; the status
    passed, when it is [updateOrderStatus] on [id]; pending, when it is a
    placement for which the client returned the positive id [id]. *)
Theorem status_after_call call w id o :
  OrderManager.orders_ (OrderManager.self w) !! id = Some o ->
  status <$> OrderManager.orders_
               (OrderManager.self (snd (OrderManager.run call w))) !! id
  = Some (default (status o)
                  (status_written call (fst (OrderManager.run call w)) id)).
Proof.
  intros Ho.
  destruct (placement call (OrderManager.clock w)) as [o0 |] eqn:Hp.
  - destruct (run_placement_orders _ _ _ Hp) as (r & Hr & Hos).
    rewrite Hr, Hos.
    assert (status_written call (OrderManager.RId r) id
            = if bool_decide (r = id) && (0 <? r)%Z
              then Some PENDING else None) as ->
      by (destruct call; simpl in *; done).
    case_bool_decide as Hid; simpl.
    + subst r. destruct (0 <? id)%Z; simpl.
      * rewrite lookup_insert_eq. simpl.
        by rewrite (placement_pending _ _ _ Hp).
      * by rewrite Ho.
    + destruct (0 <? r)%Z; simpl.
      * rewrite lookup_insert_ne by done. by rewrite Ho.
      * by rewrite Ho.
  - destruct call
      as [| | | | id' | id' newOrder | id' s | ty sd id' | | s' | s' | v | v];
      simpl in Hp; try discriminate; simpl.
    + (* cancelOrder *)
      rewrite !M_fmap_run.
      rewrite cancelOrder_eq.
      destruct (OrderManager.orders_ (OrderManager.self w) !! id')
        as [o1 |] eqn:Ho1; simpl.
      * destruct (TradingClient.cancelOrder id' (OrderManager.client_ w))
          as [[] c]; simpl.
        -- case_bool_decide as Hid; simpl.
           ++ subst id'. by rewrite lookup_insert_eq.
           ++ rewrite lookup_insert_ne by done. by rewrite Ho.
        -- by rewrite Ho.
      * by rewrite Ho.
    + (* modifyOrder *)
      rewrite !M_fmap_run.
      rewrite modifyOrder_eq.
      destruct (OrderManager.orders_ (OrderManager.self w) !! id')
        as [o1 |] eqn:Ho1; simpl.
      * destruct (OrderManager.validateOrder (OrderManager.self w) newOrder);
          simpl.
        -- destruct (TradingClient.modifyOrder id' newOrder
                       (OrderManager.client_ w)) as [[] c]; simpl.
           ++ case_bool_decide as Hid; simpl.
              ** subst id'. by rewrite lookup_insert_eq.
              ** rewrite lookup_insert_ne by done. by rewrite Ho.
           ++ by rewrite Ho.
        -- by rewrite Ho.
      * by rewrite Ho.
    + (* updateOrderStatus *)
      unfold mbind, OrderManager.M_bind.
      pose proof (updateOrderStatus_orders id' s w) as Hu.
      destruct (OrderManager.updateOrderStatus id' s w) as [[] w'].
      simpl in *. rewrite Hu.
      case_bool_decide as Hid; simpl.
      * subst id'. rewrite Ho. by rewrite lookup_insert_eq.
      * destruct (OrderManager.orders_ (OrderManager.self w) !! id').
        -- rewrite lookup_insert_ne by done. by rewrite Ho.
        -- by rewrite Ho.
    + by rewrite Ho.
    + by rewrite Ho.
    + by rewrite Ho.
    + by rewrite Ho.
    + by rewrite Ho.
    + by rewrite Ho.
Qed.

End OrderBook.

(** ** On the simulated client *)

Lemma placement_rejected_witness :
  ∃ r, fst (OrderManager.run
              (OrderManager.PlaceLimit "X" BUY 10%float (-1)%float) Desk.fresh)
       = OrderManager.RId r
       ∧ (r <= 0)%Z
       ∧ OrderManager.self
           (snd (OrderManager.run
                   (OrderManager.PlaceLimit "X" BUY 10%float (-1)%float)
                   Desk.fresh))
         = OrderManager.self Desk.fresh.
Proof.
  apply (placement_rejected
           (OrderManager.PlaceLimit "X" BUY 10%float (-1)%float) Desk.fresh
           (mkOrder 0 "X" LIMIT BUY 10%float (-1)%float 0%float PENDING 0)).
  - reflexivity.
  - left. right. right. left. split; [by left | reflexivity].
Defined.

Lemma modifyOrder_keeps_id_witness :
  fst (OrderManager.modifyOrder 1001 Desk.replacement Desk.placed) = true
  ∧ OrderManager.orders_
      (OrderManager.self
         (snd (OrderManager.modifyOrder 1001 Desk.replacement Desk.placed)))
    = <[1001 := mkOrder 1001 "X" LIMIT BUY 20%float 40%float 0%float PENDING
                        0]>
        (OrderManager.orders_ (OrderManager.self Desk.placed)).
Proof.
  apply (modifyOrder_keeps_id 1001 Desk.replacement Desk.placed
           (mkOrder 1001 "X" LIMIT BUY 10%float 50%float 0%float PENDING 0)).
  - vm_compute. reflexivity.
  - vm_compute. reflexivity.
  - reflexivity.
Defined.

Lemma status_after_call_witness :
  status <$> OrderManager.orders_
               (OrderManager.self
                  (snd (OrderManager.run (OrderManager.Cancel 1001)
                                         Desk.placed))) !! 1001
  = Some CANCELLED.
Proof.
  rewrite (status_after_call (OrderManager.Cancel 1001) Desk.placed 1001
             (mkOrder 1001 "X" LIMIT BUY 10%float 50%float 0%float PENDING 0)).
  - vm_compute. reflexivity.
  - vm_compute. reflexivity.
Defined.

(** C4, as claimed, fails. The order placed in [Desk.placed] is stored
    pending; [cancelOrder] takes it from pending to cancelled, which is no
    step of the life cycle. A confirmed [modifyOrder] on the cancelled
    order then stores the replacement with the status it carries, and the
    order is pending again. *)
Lemma lifecycle_not_enforced :
  ¬ @follows_lifecycle float _ TradingClient.Impl _
  ∧ ¬ @modify_keeps_status float _ TradingClient.Impl _.
Proof.
  assert (reachable Desk.placed) as Hplaced
    by (apply reach_call; apply reach_init).
  assert (reachable Desk.cancelled) as Hcancelled
    by (apply reach_call; exact Hplaced).
  split.
  - intros Hclaim.
    destruct (Hclaim Desk.placed (OrderManager.Cancel 1001) 1001
                (mkOrder 1001 "X" LIMIT BUY 10%float 50%float 0%float PENDING 0)
                (mkOrder 1001 "X" LIMIT BUY 10%float 50%float 0%float
                         CANCELLED 0)
                Hplaced) as [Heq | Hstep].
    + vm_compute. reflexivity.
    + vm_compute. reflexivity.
    + discriminate Heq.
    + discriminate Hstep.
  - intros Hclaim.
    specialize (Hclaim Desk.cancelled 1001 Desk.replacement
                  (mkOrder 1001 "X" LIMIT BUY 10%float 50%float 0%float
                           CANCELLED 0)
                  (snd (OrderManager.modifyOrder 1001 Desk.replacement
                                                 Desk.cancelled))
                  Hcancelled).
    assert (Some PENDING = Some CANCELLED) as Habs.
    { etransitivity; [| apply Hclaim].
      - vm_compute. reflexivity.
      - vm_compute. reflexivity.
      - vm_compute. reflexivity. }
    discriminate Habs.
Qed.

(** * The daily returns *)

Section Returns.
Context {D : Type} `{Double.Ops D}.

Implicit Types (m : PortfolioManager.t D) (xs rs : list D).

Lemma recordDailyReturn_window x m :
  (length (PortfolioManager.dailyReturns_ m) <= 252)%nat ->
  PortfolioManager.dailyReturns_ (PortfolioManager.recordDailyReturn x m)
  = drop (length (PortfolioManager.dailyReturns_ m ++ [x]) - 252)
         (PortfolioManager.dailyReturns_ m ++ [x]).
Proof.
  intros Hlen. unfold PortfolioManager.recordDailyReturn. simpl.
  rewrite length_app. simpl.
  destruct (252 <? _)%Z eqn:Hover.
  - apply Z.ltb_lt in Hover.
    replace (length (PortfolioManager.dailyReturns_ m) + 1 - 252)%nat
      with 1%nat by lia.
    by destruct (PortfolioManager.dailyReturns_ m ++ [x]).
  - apply Z.ltb_ge in Hover.
    by replace (length (PortfolioManager.dailyReturns_ m) + 1 - 252)%nat
      with 0%nat by lia.
Qed.

Lemma record_all_window xs m :
  (length (PortfolioManager.dailyReturns_ m) <= 252)%nat ->
  PortfolioManager.dailyReturns_ (record_all xs m)
  = drop (length (PortfolioManager.dailyReturns_ m ++ xs) - 252)
         (PortfolioManager.dailyReturns_ m ++ xs).
Proof.
  revert m. induction xs as [| x xs IH]; intros m Hlen.
  - simpl. rewrite app_nil_r.
    by replace (length (PortfolioManager.dailyReturns_ m) - 252)%nat
      with 0%nat by lia.
  - simpl. pose proof (recordDailyReturn_window x m Hlen) as Hx.
    rewrite IH.
    + rewrite Hx.
      rewrite <- drop_app_le by (rewrite length_app; simpl; lia).
      rewrite <- app_assoc. simpl.
      rewrite length_drop, drop_drop, !length_app. simpl.
      f_equal. lia.
    + rewrite Hx, length_drop, length_app. simpl. lia.
Qed.

(** C7. After any sequence of calls of [recordDailyReturn] on a fresh
    manager the stored series is the recorded values without all but the
    last 252, in the order they were recorded, so it holds at most 252
    values; after 300 calls it is the last 252 of them. *)
Theorem returns_rolling_window xs :
  PortfolioManager.dailyReturns_ (record_all xs PortfolioManager.init)
  = drop (length xs - 252) xs
  ∧ length (PortfolioManager.dailyReturns_
              (record_all xs PortfolioManager.init))
    = Nat.min (length xs) 252
  ∧ (length xs = 300%nat ->
     PortfolioManager.dailyReturns_ (record_all xs PortfolioManager.init)
     = drop 48 xs
     ∧ length (PortfolioManager.dailyReturns_
                 (record_all xs PortfolioManager.init)) = 252%nat).
Proof.
  assert (PortfolioManager.dailyReturns_ (record_all xs PortfolioManager.init)
          = drop (length xs - 252) xs) as Hw
    by (rewrite record_all_window; simpl; [done | lia]).
  rewrite Hw, length_drop.
  split; [done |]. split; [lia |].
  intros ->. split; [done | lia].
Qed.

End Returns.

(** * Binary64 arithmetic *)

Section Binary64.

(** *** Comparisons *)

Lemma compare_cont_swap p q :
  Pos.compare_cont Eq q p = CompOpp (Pos.compare_cont Eq p q).
Proof. symmetry. apply (Pos.compare_cont_antisym p q Eq). Qed.

Lemma SFcompare_swap x y :
  SFcompare y x = CompOpp <$> SFcompare x y.
Proof.
  destruct x as [sx | sx | | sx mx ex], y as [sy | sy | | sy my ey];
    simpl; try reflexivity;
    try (by destruct sx); try (by destruct sy); try (by destruct sx, sy).
  destruct sx, sy; simpl; try reflexivity;
    rewrite (Z.compare_antisym ex ey), (compare_cont_swap mx my);
    by destruct (ex ?= ey)%Z, (Pos.compare_cont Eq mx my).
Qed.

Lemma leb_not_gt (a b : float) :
  PrimFloat.leb a b = true -> PrimFloat.ltb b a = false.
Proof.
  rewrite FloatAxioms.leb_spec, FloatAxioms.ltb_spec. unfold SFleb, SFltb.
  rewrite (SFcompare_swap (Prim2SF a) (Prim2SF b)).
  by destruct (SFcompare (Prim2SF a) (Prim2SF b)) as [[] |].
Qed.

Lemma eqb_leb (a b : float) :
  PrimFloat.eqb a b = true -> PrimFloat.leb a b = true.
Proof.
  rewrite FloatAxioms.leb_spec, FloatAxioms.eqb_spec. unfold SFleb, SFeqb.
  by destruct (SFcompare (Prim2SF a) (Prim2SF b)) as [[] |].
Qed.

Lemma ltb_leb (a b : float) :
  PrimFloat.ltb a b = true -> PrimFloat.leb a b = true.
Proof.
  rewrite FloatAxioms.leb_spec, FloatAxioms.ltb_spec. unfold SFleb, SFltb.
  by destruct (SFcompare (Prim2SF a) (Prim2SF b)) as [[] |].
Qed.

Lemma not_ltb_leb (a b : float) :
  PrimFloat.is_nan a = false -> PrimFloat.is_nan b = false ->
  PrimFloat.ltb a b = false -> PrimFloat.leb b a = true.
Proof.
  unfold PrimFloat.is_nan.
  rewrite FloatAxioms.leb_spec, FloatAxioms.ltb_spec, !FloatAxioms.eqb_spec.
  unfold SFleb, SFltb, SFeqb.
  rewrite (SFcompare_swap (Prim2SF a) (Prim2SF b)).
  destruct (Prim2SF a) as [sx | sx | | sx mx ex],
    (Prim2SF b) as [sy | sy | | sy my ey]; simpl; try done.
  all: try (by destruct sx); try (by destruct sy); try (by destruct sx, sy).
  intros _ _. destruct sx, sy; simpl; try done.
  - destruct (ex ?= ey)%Z; simpl; try done.
    by destruct (Pos.compare_cont Eq mx my).
  - destruct (ex ?= ey)%Z; simpl; try done.
    by destruct (Pos.compare_cont Eq mx my).
Qed.
(** *** Rounding keeps a value below a power of two

    What [binary_round_aux] returns for a mantissa [mx] and exponent [ex]
    with [mx * 2 ^ ex < 2 ^ k] is at most [2 ^ k]: the shift divides the
    mantissa by a power of two and the rounding adds at most one to it. *)

Lemma digits2_pos_bounds m :
  2 ^ (Zpos (digits2_pos m) - 1) <= Zpos m < 2 ^ Zpos (digits2_pos m).
Proof.
  induction m as [m IH | m IH |]; simpl digits2_pos.
  - rewrite Pos2Z.inj_succ. replace (Z.succ (Zpos (digits2_pos m)) - 1)
      with (Z.succ (Zpos (digits2_pos m) - 1)) by lia.
    rewrite !Z.pow_succ_r by lia. lia.
  - rewrite Pos2Z.inj_succ. replace (Z.succ (Zpos (digits2_pos m)) - 1)
      with (Z.succ (Zpos (digits2_pos m) - 1)) by lia.
    rewrite !Z.pow_succ_r by lia. lia.
  - simpl. lia.
Qed.

(** A non-negative [m] below [2 ^ j] has at most [j] digits. *)
Lemma Zdigits2_le m j : 0 <= m -> 0 <= j -> m < 2 ^ j -> Zdigits2 m <= j.
Proof.
  intros Hm Hj Hlt. destruct m as [| p | p]; simpl; [lia | | lia].
  destruct (digits2_pos_bounds p) as [Hlo _].
  destruct (Z.le_gt_cases (Zpos (digits2_pos p)) j) as [| Hgt]; [done |].
  assert (2 ^ j <= 2 ^ (Zpos (digits2_pos p) - 1))
    by (apply Z.pow_le_mono_r; lia).
  lia.
Qed.

Lemma shr_1_m mrs : 0 <= shr_m mrs -> shr_m (shr_1 mrs) = shr_m mrs / 2.
Proof.
  destruct mrs as [m r s]. simpl. intros Hm.
  destruct m as [| [p | p |] | p]; cbn [shr_m]; try lia.
  - reflexivity.
  - apply Z.div_unique with 1; lia.
  - apply Z.div_unique with 0; lia.
  - reflexivity.
Qed.

Lemma pow2_xO p : 2 ^ Zpos p~0 = 2 ^ Zpos p * 2 ^ Zpos p.
Proof.
  rewrite (Pos2Z.inj_xO p), <- (Z.add_diag (Zpos p)), Z.pow_add_r by lia. lia.
Qed.

Lemma pow2_xI p : 2 ^ Zpos p~1 = 2 * (2 ^ Zpos p * 2 ^ Zpos p).
Proof.
  rewrite (Pos2Z.inj_xI p), Z.pow_add_r, <- (Z.add_diag (Zpos p)),
    Z.pow_add_r by lia.
  lia.
Qed.

Lemma iter_shr_1_m p mrs :
  0 <= shr_m mrs ->
  shr_m (SpecFloat.iter_pos shr_1 p mrs) = shr_m mrs / 2 ^ Zpos p.
Proof.
  revert mrs. induction p as [p IH | p IH |]; intros mrs Hm;
    simpl SpecFloat.iter_pos.
  - assert (0 <= shr_m (shr_1 mrs))
      by (rewrite shr_1_m by done; apply Z.div_pos; lia).
    assert (0 <= shr_m (SpecFloat.iter_pos shr_1 p (shr_1 mrs)))
      by (rewrite IH by done; apply Z.div_pos; lia).
    rewrite !IH, shr_1_m by done.
    rewrite !Z.div_div by lia. by rewrite pow2_xI, Z.mul_assoc.
  - assert (0 <= shr_m (SpecFloat.iter_pos shr_1 p mrs))
      by (rewrite IH by done; apply Z.div_pos; lia).
    rewrite !IH by done. rewrite !Z.div_div by lia. by rewrite pow2_xO.
  - by rewrite shr_1_m.
Qed.

Lemma shr_record_of_loc_m m l : shr_m (shr_record_of_loc m l) = m.
Proof. by destruct l as [| []]. Qed.

Lemma round_nearest_even_bounds m l :
  m <= round_nearest_even m l <= m + 1.
Proof.
  destruct l as [| []]; simpl; try lia. destruct (Z.even m); lia.
Qed.

Lemma shr_fexp_bound m e k l :
  0 <= m -> e <= k -> m <= 2 ^ (k - e) -> -1074 <= k ->
  0 <= shr_m (shr_fexp prec emax m e l).1
  ∧ (shr_fexp prec emax m e l).2 <= k
  ∧ shr_m (shr_fexp prec emax m e l).1 <= 2 ^ (k - (shr_fexp prec emax m e l).2)
  ∧ (m < 2 ^ (k - e) ->
     shr_m (shr_fexp prec emax m e l).1
     < 2 ^ (k - (shr_fexp prec emax m e l).2)).
Proof.
  intros Hm Hek Hle Hk.
  assert (Zdigits2 m <= k - e + 1) as Hd.
  { apply Zdigits2_le; [done | lia |].
    rewrite Z.pow_add_r by lia. 
    assert (0 < 2 ^ (k - e)) by (apply Z.pow_pos_nonneg; lia). lia. }
  unfold shr_fexp, shr.
  destruct (fexp prec emax (Zdigits2 m + e) - e) as [| p | p] eqn:Hn;
    cbn [fst snd]; rewrite ?shr_record_of_loc_m; try done.
  assert (e + Zpos p <= k) as Hek'
    by (unfold fexp, SpecFloat.emin, prec, emax in Hn; lia).
  rewrite iter_shr_1_m by (by rewrite shr_record_of_loc_m).
  rewrite shr_record_of_loc_m.
  assert (2 ^ (k - e) = 2 ^ Zpos p * 2 ^ (k - (e + Zpos p))) as Hpow
    by (rewrite <- Z.pow_add_r by lia; f_equal; lia).
  assert (0 < 2 ^ Zpos p) by (apply Z.pow_pos_nonneg; lia).
  split; [apply Z.div_pos; lia |]. split; [done |]. split.
  - apply Z.div_le_upper_bound; lia.
  - intros Hlt. apply Z.div_lt_upper_bound; lia.
Qed.

Lemma binary_round_aux_within mx ex l k :
  0 <= mx -> ex <= k -> mx < 2 ^ (k - ex) -> -1074 <= k <= 971 ->
  within k (binary_round_aux prec emax false mx ex l).
Proof.
  intros Hm Hek Hlt Hk. unfold binary_round_aux.
  destruct (shr_fexp_bound mx ex k l) as (H0 & He & _ & Hs); try lia.
  specialize (Hs Hlt).
  destruct (shr_fexp prec emax mx ex l) as [mrs' e']. cbn [fst snd] in *.
  pose proof (round_nearest_even_bounds (shr_m mrs')
                (loc_of_shr_record mrs')) as Hr.
  set (mr := round_nearest_even _ _) in *.
  destruct (shr_fexp_bound mr e' k loc_Exact) as (H0' & He' & Hle' & _);
    try lia.
  destruct (shr_fexp prec emax mr e' loc_Exact) as [mrs'' e''].
  cbn [fst snd] in *.
  destruct (shr_m mrs'') as [| m | m]; [done | | lia].
  replace (e'' <=? emax - prec) with true
    by (symmetry; apply Z.leb_le; unfold emax, prec; lia).
  done.
Qed.

Lemma iter_xO m d : Zpos (Pos.iter xO m d) = Zpos m * 2 ^ Zpos d.
Proof.
  change (Pos.iter xO m d) with (Zpower.shift_pos d m).
  rewrite Zpower.shift_pos_correct, Z.pow_pos_fold. lia.
Qed.

(** Aligning to a lower exponent keeps the value. *)
Lemma shl_align_value m e e' :
  e' <= e ->
  (shl_align m e e').2 = e'
  ∧ Zpos (shl_align m e e').1 = Zpos m * 2 ^ (e - e').
Proof.
  intros Hle. unfold shl_align.
  destruct (e' - e) as [| d | d] eqn:Hd; cbn [fst snd]; try lia.
  - assert (e' = e) as -> by lia. rewrite Z.sub_diag. simpl. lia.
  - rewrite iter_xO. split; [done |]. do 2 f_equal. lia.
Qed.

Lemma binary_round_within m e k :
  e <= k -> Zpos m < 2 ^ (k - e) -> -1074 <= k <= 971 ->
  within k (binary_round prec emax false m e).
Proof.
  intros Hek Hlt Hk. unfold binary_round.
  destruct (Z.le_gt_cases (fexp prec emax (Zpos (digits2_pos m) + e)) e)
    as [Hle | Hgt].
  - destruct (shl_align_value m e _ Hle) as [He' Hm'].
    destruct (shl_align m e _) as [mz ez]. cbn [fst snd] in *. subst ez.
    apply binary_round_aux_within; try lia.
    rewrite Hm'.
    replace (k - fexp prec emax (Zpos (digits2_pos m) + e))
      with ((k - e) + (e - fexp prec emax (Zpos (digits2_pos m) + e)))
      by lia.
    rewrite Z.pow_add_r by lia.
    apply Z.mul_lt_mono_pos_r; [apply Z.pow_pos_nonneg; lia | done].
  - unfold shl_align.
    destruct (fexp prec emax (Zpos (digits2_pos m) + e) - e) eqn:Hd;
      try lia.
    apply binary_round_aux_within; lia.
Qed.

Lemma binary_normalize_within m e k :
  0 <= m -> e <= k -> m < 2 ^ (k - e) -> -1074 <= k <= 971 ->
  within k (binary_normalize prec emax m e false).
Proof.
  intros Hm Hek Hlt Hk. destruct m as [| p | p]; simpl; [done | | lia].
  by apply binary_round_within.
Qed.

(** [std::size_t] to [double], for sizes below [2 ^ k]. *)
Lemma of_Z_within (n k : Z) :
  0 <= n < 2 ^ k -> 0 <= k <= 62 ->
  within k (Prim2SF (Double.of_Z n)).
Proof.
  intros Hn Hk. simpl. rewrite of_uint63_spec, Uint63.of_Z_spec.
  assert (2 ^ k <= 2 ^ 62) by (apply Z.pow_le_mono_r; lia).
  rewrite Z.mod_small by (change wB with (2 ^ 63); lia).
  apply binary_normalize_within; try lia.
  rewrite Z.sub_0_r. lia.
Qed.

Lemma compare_cont_Eq_le p q :
  Pos.compare_cont Eq p q <> Gt -> Zpos p <= Zpos q.
Proof. intros Hc. exact Hc. Qed.

(** [1.0 - c] for [0 <= c <= 1] lies between 0 and 2. *)
Lemma SFsub_one_within x :
  valid_binary x = true ->
  SFleb (S754_zero false) x = true -> SFleb x one64 = true ->
  within 1 (SFsub prec emax one64 x).
Proof.
  intros Hv H0 H1.
  destruct x as [s | s | | [] m e];
    unfold SFleb, SFcompare, one64 in H0, H1; try discriminate.
  - unfold one64, SFsub, within. split; [lia |]. by vm_compute.
  - destruct s; discriminate.
  - unfold one64.
    assert (Zpos m < 2 ^ 53) as Hm.
    { simpl in Hv. unfold bounded, canonical_mantissa in Hv.
      apply andb_prop in Hv as [Hc _]. apply Z.eqb_eq in Hc.
      destruct (digits2_pos_bounds m) as [_ Hhi].
      eapply Z.lt_le_trans; [exact Hhi |]. apply Z.pow_le_mono_r; [lia |].
      unfold fexp, SpecFloat.emin, prec, emax in Hc. lia. }
    assert (e <= -52 ∧ Zpos m <= 2 ^ (- e)) as [He Hme].
    { destruct (e ?= -52) eqn:Hcmp; try done.
      - apply Z.compare_eq in Hcmp. subst e. split; [lia |].
        change (2 ^ (- (-52))) with (Zpos 4503599627370496).
        apply compare_cont_Eq_le. intros Hc. rewrite Hc in H1. discriminate.
      - rewrite Z.compare_lt_iff in Hcmp. split; [lia |].
        assert (2 ^ 53 <= 2 ^ (- e)) by (apply Z.pow_le_mono_r; lia). lia. }
    unfold SFsub. rewrite Z.min_r by lia.
    destruct (shl_align_value 4503599627370496 (-52) e He) as [_ Ha].
    destruct (shl_align_value m e e (Z.le_refl e)) as [_ Hb].
    rewrite Z.sub_diag in Hb. simpl Z.pow in Hb.
    unfold cond_Zopp. rewrite Ha, Hb.
    assert (4503599627370496 * 2 ^ (-52 - e) = 2 ^ (- e)) as ->.
    { change 4503599627370496 with (2 ^ 52). rewrite <- Z.pow_add_r by lia.
      f_equal. lia. }
    assert (2 ^ (1 - e) = 2 * 2 ^ (- e)) as Hpow
      by (rewrite <- Z.pow_succ_r by lia; f_equal; lia).
    assert (0 < 2 ^ (- e)) by (apply Z.pow_pos_nonneg; lia).
    apply binary_normalize_within; lia.
Qed.

(** The product of a value in [0, 2] and one in [0, 2 ^ k]. *)
Lemma SFmul_within a b k :
  within 1 a -> within k b -> 0 <= k <= 969 ->
  within (k + 2) (SFmul prec emax a b).
Proof.
  intros Ha Hb Hk.
  destruct a as [sa | sa | | [] ma ea], b as [sb | sb | | [] mb eb];
    simpl in Ha, Hb; try contradiction; try exact I.
  destruct Ha as [Hea Hma], Hb as [Heb Hmb].
  unfold SFmul. simpl xorb.
  apply binary_round_aux_within; try lia.
  rewrite Pos2Z.inj_mul.
  assert (Zpos ma * Zpos mb <= 2 ^ (1 - ea) * 2 ^ (k - eb))
    by (apply Z.mul_le_mono_nonneg; lia).
  rewrite <- Z.pow_add_r in * by lia.
  assert (2 ^ (1 - ea + (k - eb)) < 2 ^ (k + 2 - (ea + eb)))
    by (apply Z.pow_lt_mono_r; lia).
  lia.
Qed.

(** The cast to [int] of a value in [0, 2 ^ k]. *)
Lemma SFtrunc_within x k :
  within k x -> 0 <= k ->
  ∃ z, Double.SFtrunc x = Some z ∧ 0 <= z <= 2 ^ k.
Proof.
  intros Hx Hk. destruct x as [s | s | | s m e]; simpl in Hx; try done.
  - exists 0. split; [done |]. split; [done |]. apply Z.pow_nonneg. lia.
  - destruct s; [done |]. destruct Hx as [He Hm].
    eexists; split; [reflexivity |]. simpl cond_Zopp.
    destruct (Z.le_gt_cases 0 e) as [Hpos | Hneg].
    + rewrite Z.shiftl_mul_pow2 by done. split; [lia |].
      replace k with ((k - e) + e) at 1 by lia. rewrite Z.pow_add_r by lia.
      apply Z.mul_le_mono_nonneg_r; [apply Z.pow_nonneg|]; lia.
    + rewrite Z.shiftl_div_pow2 by lia.
      assert (0 < 2 ^ (- e)) by (apply Z.pow_pos_nonneg; lia).
      split; [apply Z.div_pos; lia |].
      apply Z.div_le_upper_bound; [done |].
      rewrite <- Z.pow_add_r by lia.
      by replace (- e + k) with (k - e) by lia.
Qed.

Lemma SFfloor_within x k :
  within k x -> SFfloor x = Double.SFtrunc x.
Proof. destruct x as [s | s | | [] m e]; simpl; done. Qed.


(** The rank [getVaR] computes for a level between 0 and 1 is a
    non-negative [int]: the cast is defined, and truncation is the floor. *)
Lemma rank_defined (c : float) (n : Z) :
  PrimFloat.leb 0 c = true -> PrimFloat.leb c 1 = true -> 0 <= n < 2 ^ 28 ->
  ∃ k, Double.to_int ((1 - c) * Double.of_Z n)%D = Some k
       ∧ floor_double ((1 - c) * Double.of_Z n)%D = Some k
       ∧ 0 <= k.
Proof.
  intros H0 H1 Hn.
  rewrite FloatAxioms.leb_spec in H0, H1.
  set (p := ((1 - c) * Double.of_Z n)%D).
  assert (within 30 (Prim2SF p)) as Hw.
  { change (within 30 (Prim2SF (PrimFloat.mul (PrimFloat.sub 1%float c)
                                              (Double.of_Z n)))).
    rewrite FloatAxioms.mul_spec, FloatAxioms.sub_spec.
    replace (Prim2SF 1%float) with one64 in * by (vm_compute; reflexivity).
    replace (Prim2SF 0%float) with (S754_zero false) in *
      by (vm_compute; reflexivity).
    apply (SFmul_within _ _ 28); [| by apply of_Z_within | lia].
    apply SFsub_one_within; [apply Prim2SF_valid | exact H0 | exact H1]. }
  destruct (SFtrunc_within _ 30 Hw) as (k & Hk & Hk0 & Hk1); [lia |].
  exists k. unfold floor_double. rewrite (SFfloor_within _ _ Hw).
  change (Double.to_int p) with (Double.float_to_int p).
  unfold Double.float_to_int. rewrite Hk.
  assert (Int.in_range k = true) as ->.
  { unfold Int.in_range, Int.INT_MIN, Int.INT_MAX.
    apply andb_true_intro. split; apply Z.leb_le; lia. }
  done.
Qed.

End Binary64.

(** *** The order of binary64 values *)

Section Order64.

Lemma SFleb_trans x y z :
  SFleb x y = true -> SFleb y z = true -> SFleb x z = true.
Proof.
  unfold SFleb.
  destruct x as [sx | sx | | sx mx ex], y as [sy | sy | | sy my ey],
    z as [sz | sz | | sz mz ez];
    try destruct sx; try destruct sy; try destruct sz;
    cbn [SFcompare]; try done.
  - change (Pos.compare_cont Eq ?p ?q) with (Pos.compare p q).
    destruct (Z.compare_spec ex ey), (Z.compare_spec ey ez),
      (Z.compare_spec ex ez); try lia; try done; subst.
    destruct (Pos.compare_spec mx my), (Pos.compare_spec my mz),
      (Pos.compare_spec mx mz); cbn [CompOpp]; try done; lia.
  - change (Pos.compare_cont Eq ?p ?q) with (Pos.compare p q).
    destruct (Z.compare_spec ex ey), (Z.compare_spec ey ez),
      (Z.compare_spec ex ez); try lia; try done; subst.
    destruct (Pos.compare_spec mx my), (Pos.compare_spec my mz),
      (Pos.compare_spec mx mz); cbn [CompOpp]; try done; lia.
Qed.

Lemma leb_trans (a b c : float) :
  PrimFloat.leb a b = true -> PrimFloat.leb b c = true ->
  PrimFloat.leb a c = true.
Proof. rewrite !FloatAxioms.leb_spec. apply SFleb_trans. Qed.

Lemma SFcompare_refl x : x ≠ S754_nan -> SFcompare x x = Some Eq.
Proof.
  destruct x as [s | s | | s m e]; intros Hx; try done; cbn [SFcompare].
  - by destruct s.
  - rewrite Z.compare_refl, Pos.compare_cont_refl. by destruct s.
Qed.

Lemma is_nan_spec (a : float) :
  PrimFloat.is_nan a = false ↔ Prim2SF a ≠ S754_nan.
Proof.
  unfold PrimFloat.is_nan. rewrite FloatAxioms.eqb_spec. unfold SFeqb.
  split.
  - intros Heq Hnan. rewrite Hnan in Heq. done.
  - intros Hx. by rewrite (SFcompare_refl _ Hx).
Qed.

Lemma leb_is_nan (a b : float) :
  PrimFloat.leb a b = true ->
  PrimFloat.is_nan a = false ∧ PrimFloat.is_nan b = false.
Proof.
  rewrite FloatAxioms.leb_spec, !is_nan_spec. unfold SFleb.
  destruct (Prim2SF a) as [sx | sx | | sx mx ex],
    (Prim2SF b) as [sy | sy | | sy my ey]; try done.
Qed.

Lemma leb_refl (a : float) :
  PrimFloat.is_nan a = false -> PrimFloat.leb a a = true.
Proof.
  rewrite is_nan_spec, FloatAxioms.leb_spec. unfold SFleb.
  intros Hx. by rewrite (SFcompare_refl _ Hx).
Qed.

Lemma leb_antisym (a b : float) :
  PrimFloat.leb a b = true -> PrimFloat.leb b a = true ->
  PrimFloat.eqb a b = true.
Proof.
  rewrite !FloatAxioms.leb_spec, FloatAxioms.eqb_spec.
  unfold SFleb, SFeqb.
  rewrite (SFcompare_swap (Prim2SF a) (Prim2SF b)).
  by destruct (SFcompare (Prim2SF a) (Prim2SF b)) as [[] |].
Qed.

Lemma leb_ltb_trans (a b c : float) :
  PrimFloat.leb a b = true -> PrimFloat.ltb b c = true ->
  PrimFloat.ltb a c = true.
Proof.
  intros Hab Hbc.
  destruct (leb_is_nan _ _ Hab) as [Ha _].
  destruct (leb_is_nan _ _ (ltb_leb _ _ Hbc)) as [_ Hc].
  destruct (PrimFloat.ltb a c) eqn:Hac; [done |].
  pose proof (not_ltb_leb _ _ Ha Hc Hac) as Hca.
  pose proof (leb_trans _ _ _ Hca Hab) as Hcb.
  by rewrite (leb_not_gt _ _ Hcb) in Hbc.
Qed.

End Order64.

(** * The drawdown on binary64 *)

Section Drawdown64.

Lemma drawdown_fold (rs : list float) (d p : float) :
  PrimFloat.leb 0 d = true ->
  let R := fst (fold_left PortfolioManager.drawdown_step rs (d, p)) in
  PrimFloat.leb d R = true
  ∧ Forall (fun l => PrimFloat.is_nan l = true ∨ PrimFloat.leb l R = true)
           (day_losses p rs)
  ∧ (R = d ∨ R ∈ day_losses p rs).
Proof.
  revert d p. induction rs as [| r rs IH]; intros d p Hd.
  - cbn. destruct (leb_is_nan _ _ Hd) as [_ Hnan].
    split; [by apply leb_refl |]. split; [constructor | by left].
  - cbn [fold_left day_losses]. cbv zeta.
    set (peak := if PrimFloat.ltb p (p * (1 + r))
                 then (p * (1 + r))%float else p).
    set (l := ((peak - peak * (1 + r)) / peak)%float).
    assert (PortfolioManager.drawdown_step (d, p) r
            = (if PrimFloat.ltb d l then l else d, peak)) as -> by reflexivity.
    destruct (leb_is_nan _ _ Hd) as [_ Hdn].
    destruct (PrimFloat.ltb d l) eqn:Hdl.
    + pose proof (ltb_leb _ _ Hdl) as Hle.
      destruct (IH l peak (leb_trans _ _ _ Hd Hle)) as (Hl & Hrest & Hin).
      split; [by eapply leb_trans |].
      split; [constructor; [by right | done] |].
      right. destruct Hin as [-> | Hin]; [by left | by right].
    + destruct (IH d peak Hd) as (Hl & Hrest & Hin).
      split; [done |].
      split.
      * constructor; [| done].
        destruct (PrimFloat.is_nan l) eqn:Hln; [by left | right].
        eapply leb_trans; [| exact Hl]. by apply not_ltb_leb.
      * destruct Hin as [-> | Hin]; [by left | right; by right].
Qed.

(** C3, as the code has it on binary64. [getMaxDrawdown] is zero on an
    empty history but not on every history: the computation does not
    cancel. On each day the loop raises the peak to [peak * (1 + r)] if
    that is above it and then computes [(peak - peak * (1 + r)) / peak]
    on the updated peak, which is the loss of the day relative to the
    peak and not [peak - peak]. The result is the largest of these daily
    values and zero: it is not a NaN and not negative, it is at least
    every daily value that is not a NaN, and it is zero or one of them.
    After the single return [-0.5] the daily value, and the result, is
    [0.5]. *)
Theorem getMaxDrawdown_largest_day_loss :
  (∀ m : PortfolioManager.t float,
     let R := PortfolioManager.getMaxDrawdown m in
     let losses := day_losses (PortfolioManager.initialPortfolioValue_ m)
                              (PortfolioManager.dailyReturns_ m) in
     (PortfolioManager.dailyReturns_ m = [] -> R = 0%float)
     ∧ PrimFloat.leb 0 R = true
     ∧ Forall (fun l => PrimFloat.is_nan l = true ∨ PrimFloat.leb l R = true)
              losses
     ∧ (R = 0%float ∨ R ∈ losses))
  ∧ day_losses 100000 [(-0.5)%float] = [0.5%float]
  ∧ PortfolioManager.getMaxDrawdown
      (record_all [(-0.5)%float] PortfolioManager.init) = 0.5%float.
Proof.
  split; [| split; reflexivity].
  intros m R losses. unfold R, losses, PortfolioManager.getMaxDrawdown.
  destruct (PortfolioManager.dailyReturns_ m) as [| r rs] eqn:Hrs.
  - split; [done |]. split; [reflexivity |]. split; [constructor | by left].
  - split; [done |].
    exact (drawdown_fold (r :: rs) 0%float
             (PortfolioManager.initialPortfolioValue_ m) eq_refl).
Qed.

End Drawdown64.

(** C3, as claimed, fails on binary64: after the single return [-0.5] the
    peak stays at the initial value [p], and the drawdown is
    [(p - p * 0.5) / p], which is [0.5]. *)
Lemma drawdown_not_always_zero : ¬ drawdown_always_zero.
Proof.
  intros Hzero. specialize (Hzero [(-0.5)%float]).
  vm_compute in Hzero. discriminate Hzero.
Qed.

(** * The value at risk *)

Section Sorting.
Context {D : Type} `{Double.Ops D}.

Lemma sort_insert_perm (x : D) l :
  Permutation (PortfolioManager.sort_insert x l) (x :: l).
Proof.
  induction l as [| y l IH]; simpl; [done |].
  destruct (x <? y)%D; [done |].
  rewrite IH. apply perm_swap.
Qed.

Lemma std_sort_perm (l : list D) : Permutation (PortfolioManager.std_sort l) l.
Proof.
  induction l as [| x l IH]; simpl; [done |].
  rewrite sort_insert_perm. by constructor.
Qed.

End Sorting.

Lemma sort_insert_sorted (x : float) l :
  PrimFloat.is_nan x = false ->
  Forall (fun r => PrimFloat.is_nan r = false) l ->
  Sorted le64 l -> Sorted le64 (PortfolioManager.sort_insert x l).
Proof.
  intros Hx Hl Hs. induction Hs as [| y l Hs IH Hhd]; simpl.
  - by repeat constructor.
  - inversion Hl as [| ? ? Hy Hl']; subst.
    destruct (PrimFloat.ltb x y) eqn:Hlt.
    + constructor; [by constructor |]. constructor. by apply ltb_leb.
    + constructor; [by apply IH |].
      destruct Hhd as [| z l Hyz]; simpl.
      * constructor. by apply not_ltb_leb.
      * destruct (PrimFloat.ltb x z); constructor; [| done].
        by apply not_ltb_leb.
Qed.

Lemma std_sort_sorted (l : list float) :
  Forall (fun r => PrimFloat.is_nan r = false) l ->
  Sorted le64 (PortfolioManager.std_sort l).
Proof.
  induction 1 as [| x l Hx Hl IH]; simpl; [constructor |].
  apply sort_insert_sorted; [done | | done].
  by rewrite std_sort_perm.
Qed.


Lemma clamp_index_nonneg size index :
  0 < size < 2 ^ 31 -> 0 <= index < 2 ^ 31 ->
  PortfolioManager.clamp_index size index = Z.min index (size - 1).
Proof.
  intros Hsize Hin. unfold PortfolioManager.clamp_index, Int.to_size_t.
  rewrite Z.mod_small by lia.
  destruct (size <=? index) eqn:Hge.
  - apply Z.leb_le in Hge. unfold Int.wrap.
    rewrite Z.mod_small by lia. lia.
  - apply Z.leb_gt in Hge. lia.
Qed.

Lemma float_to_int_in_range x k :
  Double.float_to_int x = Some k -> Int.in_range k = true.
Proof.
  unfold Double.float_to_int. destruct (Double.SFtrunc (Prim2SF x)) as [z |];
    [| done].
  destruct (Int.in_range z) eqn:Hz; [| done]. by intros [= <-].
Qed.

(** [getVaR] on a history of fewer than [2 ^ 28] values. *)
Lemma getVaR_reads_rank (c : float) (m : PortfolioManager.t float) :
  PortfolioManager.dailyReturns_ m ≠ [] ->
  Z.of_nat (length (PortfolioManager.dailyReturns_ m)) < 2 ^ 28 ->
  PrimFloat.leb 0 c = true -> PrimFloat.leb c 1 = true ->
  ∃ k r,
    VaR_rank c (Z.of_nat (length (PortfolioManager.dailyReturns_ m))) = Some k
    ∧ 0 <= k < Z.of_nat (length (PortfolioManager.dailyReturns_ m))
    ∧ PortfolioManager.std_sort (PortfolioManager.dailyReturns_ m)
        !! Z.to_nat k = Some r
    ∧ PortfolioManager.getVaR c m = Some (- r)%float.
Proof.
  intros Hne Hlen H0 H1.
  unfold PortfolioManager.getVaR.
  remember (PortfolioManager.dailyReturns_ m) as rs eqn:Hrs.
  remember (Z.of_nat (length rs)) as n eqn:Hn.
  assert (0 < n) by (destruct rs; [done | subst n; simpl; lia]).
  assert (length (PortfolioManager.std_sort rs) = length rs) as Hsl
    by (apply Permutation_length, std_sort_perm).
  destruct (rank_defined c n H0 H1) as (k0 & Hcast & Hfloor & Hk0); [lia |].
  assert (Int.in_range k0 = true) as Hin
    by (by apply (float_to_int_in_range _ _ Hcast)).
  assert (k0 < 2 ^ 31).
  { unfold Int.in_range, Int.INT_MAX in Hin.
    apply andb_prop in Hin as [_ Hhi]. apply Z.leb_le in Hhi. lia. }
  assert (PortfolioManager.clamp_index n k0 = Z.min k0 (n - 1)) as Hclamp
    by (apply clamp_index_nonneg; lia).
  destruct (lookup_lt_is_Some_2 (PortfolioManager.std_sort rs)
              (Z.to_nat (Z.min k0 (n - 1)))) as [r Hr];
    [rewrite Hsl; lia |].
  exists (Z.min k0 (n - 1)), r.
  split; [unfold VaR_rank; by rewrite Hfloor |].
  split; [lia |]. split; [done |].
  rewrite Hsl, <- Hn.
  destruct rs as [| r0 rs0]; [done |].
  rewrite Hcast. cbn [mbind option_bind]. rewrite Hclamp.
  unfold Int.to_size_t. rewrite Z.mod_small by lia.
  by rewrite Hr.
Qed.

Section Validation.
Context {D : Type} `{Double.Ops D}.

(** On an order that is not malformed [validateOrder] is the risk check. *)
Lemma validateOrder_well_formed (m : OrderManager.t D) (o : Order D) :
  ¬ malformed o ->
  OrderManager.validateOrder m o = OrderManager.checkRiskLimits m o.
Proof.
  unfold malformed, OrderManager.validateOrder. intros Hwf.
  case_bool_decide as Hs; [tauto |].
  destruct (quantity o <=? 0)%D eqn:Hq; [tauto |].
  destruct (price o <=? 0)%D eqn:Hp, (stopPrice o <=? 0)%D eqn:Hsp;
    repeat case_bool_decide; simpl; try reflexivity; tauto.
Qed.

End Validation.

(** C2. For an order that is not malformed, while the daily PnL is not
    below the negated daily-loss limit: when [quantity * price] exceeds the
    position-size limit the risk check, and with it [validateOrder],
    rejects the order; when it is at or below the limit they accept it,
    and so they do when it equals the limit. *)
Theorem risk_limit_boundary (m : OrderManager.t float) (o : Order float) :
  ¬ malformed o ->
  PrimFloat.ltb (OrderManager.dailyPnL_ m) (- OrderManager.maxDailyLoss_ m)
  = false ->
  let notional := (quantity o * price o)%float in
  (PrimFloat.ltb (OrderManager.maxPositionSize_ m) notional = true ->
   OrderManager.checkRiskLimits m o = false
   ∧ OrderManager.validateOrder m o = false)
  ∧ (PrimFloat.leb notional (OrderManager.maxPositionSize_ m) = true ->
     OrderManager.checkRiskLimits m o = true
     ∧ OrderManager.validateOrder m o = true)
  ∧ (PrimFloat.eqb notional (OrderManager.maxPositionSize_ m) = true ->
     OrderManager.checkRiskLimits m o = true
     ∧ OrderManager.validateOrder m o = true).
Proof.
  intros Hwf Hpnl notional.
  rewrite (validateOrder_well_formed m o Hwf).
  assert (∀ b, OrderManager.checkRiskLimits m o = b
               -> OrderManager.checkRiskLimits m o = b
                  ∧ OrderManager.checkRiskLimits m o = b) as Hboth by done.
  assert (PrimFloat.leb notional (OrderManager.maxPositionSize_ m) = true
          -> OrderManager.checkRiskLimits m o = true) as Hle.
  { intros Hle. apply leb_not_gt in Hle.
    unfold OrderManager.checkRiskLimits.
    change (quantity o * price o)%D with notional.
    change (Double.ltb (OrderManager.maxPositionSize_ m) notional)
      with (PrimFloat.ltb (OrderManager.maxPositionSize_ m) notional).
    rewrite Hle.
    change (Double.ltb (OrderManager.dailyPnL_ m)
                       (- OrderManager.maxDailyLoss_ m)%D)
      with (PrimFloat.ltb (OrderManager.dailyPnL_ m)
                          (- OrderManager.maxDailyLoss_ m)).
    by rewrite Hpnl. }
  split; [| split].
  - intros Hgt. apply Hboth. unfold OrderManager.checkRiskLimits.
    change (quantity o * price o)%D with notional.
    change (Double.ltb (OrderManager.maxPositionSize_ m) notional)
      with (PrimFloat.ltb (OrderManager.maxPositionSize_ m) notional).
    by rewrite Hgt.
  - intros H. by apply Hboth, Hle.
  - intros H. by apply Hboth, Hle, eqb_leb.
Qed.

Lemma risk_limit_boundary_witness :
  let o := mkOrder 0 "X" LIMIT BUY 100%float 100%float 0%float PENDING 0 in
  (PrimFloat.ltb (OrderManager.maxPositionSize_ OrderManager.init)
                 (quantity o * price o)%float = true ->
   OrderManager.checkRiskLimits OrderManager.init o = false
   ∧ OrderManager.validateOrder OrderManager.init o = false)
  ∧ (PrimFloat.leb (quantity o * price o)%float
                   (OrderManager.maxPositionSize_ OrderManager.init) = true ->
     OrderManager.checkRiskLimits OrderManager.init o = true
     ∧ OrderManager.validateOrder OrderManager.init o = true)
  ∧ (PrimFloat.eqb (quantity o * price o)%float
                   (OrderManager.maxPositionSize_ OrderManager.init) = true ->
     OrderManager.checkRiskLimits OrderManager.init o = true
     ∧ OrderManager.validateOrder OrderManager.init o = true).
Proof.
  apply (risk_limit_boundary OrderManager.init
           (mkOrder 0 "X" LIMIT BUY 100%float 100%float 0%float PENDING 0)).
  - unfold malformed. simpl. intros [Hs | [Hq | [[_ Hp] | [[Ht | Ht] _]]]];
      discriminate.
  - reflexivity.
Defined.

Lemma record_all_short (xs : list float) :
  Z.of_nat (length (PortfolioManager.dailyReturns_
                      (record_all xs PortfolioManager.init))) < 2 ^ 28.
Proof.
  rewrite record_all_window by (simpl; lia).
  rewrite length_drop. simpl. assert (252 < 2 ^ 28) by done. lia.
Qed.

(** ** The element at a rank of a sorted list *)

Section Ranks.

Implicit Types (s : list float) (x y : float).

Lemma le64_sorted_strongly s : Sorted le64 s -> StronglySorted le64 s.
Proof.
  apply Sorted.Sorted_StronglySorted. intros a b c. apply leb_trans.
Qed.

Lemma length_filter_all (P : float -> Prop) `{∀ y, Decision (P y)} s :
  Forall P s -> length (filter P s) = length s.
Proof.
  induction 1 as [| y s Hy _ IH]; [done |].
  rewrite filter_cons_True by done. simpl. by rewrite IH.
Qed.

Lemma length_filter_none (P : float -> Prop) `{∀ y, Decision (P y)} s :
  Forall (fun y => ¬ P y) s -> length (filter P s) = 0%nat.
Proof.
  induction 1 as [| y s Hy _ IH]; [done |].
  by rewrite filter_cons_False.
Qed.

Lemma length_filter_mono (P Q : float -> Prop) `{∀ y, Decision (P y)}
      `{∀ y, Decision (Q y)} s :
  (∀ y, P y -> Q y) -> (length (filter P s) <= length (filter Q s))%nat.
Proof.
  intros HPQ. induction s as [| y s IH]; [done |].
  destruct (decide (P y)) as [Hy | Hy].
  - rewrite (filter_cons_True P) by done.
    rewrite (filter_cons_True Q) by auto. simpl. lia.
  - rewrite (filter_cons_False P) by done.
    destruct (decide (Q y)).
    + rewrite (filter_cons_True Q) by done. simpl. lia.
    + by rewrite (filter_cons_False Q).
Qed.

(** In an ascending list fewer than [k + 1] elements are below the one at
    index [k]. *)
Lemma below_rank s (k : nat) x :
  StronglySorted le64 s -> s !! k = Some x ->
  (length (filter (fun y => PrimFloat.ltb y x = true) s) <= k)%nat.
Proof.
  intros Hs Hk. rewrite <- (take_drop_middle s k x Hk) in Hs |- *.
  rewrite filter_app, length_app.
  rewrite (length_filter_none _ (x :: drop (S k) s)).
  - pose proof (length_filter (fun y => PrimFloat.ltb y x = true) (take k s))
      as Hle.
    rewrite length_take in Hle. lia.
  - apply StronglySorted_app_1_r in Hs.
    inversion Hs as [| ? ? _ Hall]; subst.
    constructor.
    + destruct (PrimFloat.ltb x x) eqn:Hxx; [| done].
      pose proof (ltb_leb _ _ Hxx) as Hle.
      by rewrite (leb_not_gt _ _ Hle) in Hxx.
    + eapply Forall_impl; [exact Hall |].
      intros y Hxy. unfold le64 in Hxy. by rewrite (leb_not_gt _ _ Hxy).
Qed.

(** More than [k] elements of an ascending list without NaN are at most
    the one at index [k]. *)
Lemma upto_rank s (k : nat) x :
  StronglySorted le64 s -> PrimFloat.is_nan x = false -> s !! k = Some x ->
  (k < length (filter (fun y => PrimFloat.leb y x = true) s))%nat.
Proof.
  intros Hs Hx Hk.
  assert (length (take k s) = k) as Hlen.
  { rewrite length_take. apply lookup_lt_Some in Hk. lia. }
  pose proof (take_drop_middle s k x Hk) as Hmid.
  revert Hs Hlen Hmid. generalize (take k s), (drop (S k) s).
  intros l1 l2 Hs Hlen Hmid. subst s.
  replace (l1 ++ x :: l2) with ((l1 ++ [x]) ++ l2) by (by rewrite <- app_assoc).
  rewrite filter_app, length_app.
  rewrite (length_filter_all _ (l1 ++ [x])).
  - rewrite length_app. simpl. lia.
  - apply Forall_app. split.
    + apply list.Forall_forall. intros y Hy.
      apply (StronglySorted_app_1_elem_of le64 _ _ y x Hs Hy). by left.
    + constructor; [by apply leb_refl | constructor].
Qed.

(** Two ascending arrangements of the same values without NaN hold
    equal values at each index. *)
Lemma sorted_rank_unique s1 s2 (k : nat) x1 x2 :
  Forall (fun r => PrimFloat.is_nan r = false) s1 ->
  Permutation s1 s2 -> Sorted le64 s1 -> Sorted le64 s2 ->
  s1 !! k = Some x1 -> s2 !! k = Some x2 -> PrimFloat.eqb x1 x2 = true.
Proof.
  intros Hnan Hperm Hs1 Hs2 Hk1 Hk2.
  apply le64_sorted_strongly in Hs1, Hs2.
  assert (Forall (fun r => PrimFloat.is_nan r = false) s2) as Hnan2
    by (by rewrite <- Hperm).
  assert (PrimFloat.is_nan x1 = false) as Hx1.
  { eapply (proj1 (list.Forall_forall _ _) Hnan).
    by eapply list_elem_of_lookup_2. }
  assert (PrimFloat.is_nan x2 = false) as Hx2.
  { eapply (proj1 (list.Forall_forall _ _) Hnan2).
    by eapply list_elem_of_lookup_2. }
  assert (∀ t1 t2 y1 y2,
            Permutation t1 t2 -> StronglySorted le64 t1 ->
            StronglySorted le64 t2 -> PrimFloat.is_nan y1 = false ->
            t1 !! k = Some y1 -> t2 !! k = Some y2 ->
            PrimFloat.ltb y1 y2 = false) as Hside.
  { intros t1 t2 y1 y2 Hp Ht1 Ht2 Hy1 Hl1 Hl2.
    destruct (PrimFloat.ltb y1 y2) eqn:Hlt; [| done].
    pose proof (upto_rank t1 k y1 Ht1 Hy1 Hl1) as Hup.
    pose proof (below_rank t2 k y2 Ht2 Hl2) as Hbelow.
    pose proof (length_filter_mono
                  (fun y => PrimFloat.leb y y1 = true)
                  (fun y => PrimFloat.ltb y y2 = true) t1) as Hmono.
    rewrite (Permutation_length
               (filter_Permutation (fun y => PrimFloat.ltb y y2 = true)
                                   _ _ Hp)) in Hmono.
    assert (∀ y, PrimFloat.leb y y1 = true -> PrimFloat.ltb y y2 = true)
      as Himp by (intros y Hy; by eapply leb_ltb_trans).
    specialize (Hmono Himp). lia. }
  apply leb_antisym.
  - apply not_ltb_leb; [done | done |].
    apply (Hside s2 s1 x2 x1); [by symmetry | done..].
  - apply not_ltb_leb; [done | done |].
    by apply (Hside s1 s2 x1 x2).
Qed.

End Ranks.

Lemma SFcompare_opp x y :
  SFcompare (SFopp x) (SFopp y) = CompOpp <$> SFcompare x y.
Proof.
  destruct x as [sx | sx | | sx mx ex], y as [sy | sy | | sy my ey];
    try destruct sx; try destruct sy; try reflexivity;
    cbn [SFopp negb SFcompare fmap option_fmap option_map];
    by destruct (ex ?= ey)%Z, (Pos.compare_cont Eq mx my).
Qed.

Lemma eqb_opp (a b : float) :
  PrimFloat.eqb a b = true -> PrimFloat.eqb (- a) (- b) = true.
Proof.
  rewrite !FloatAxioms.eqb_spec, !FloatAxioms.opp_spec. unfold SFeqb.
  rewrite SFcompare_opp.
  by destruct (SFcompare (Prim2SF a) (Prim2SF b)) as [[] |].
Qed.

(** C8, as the code has it. After any recorded returns, not none and none
    of them a NaN, and for a confidence level between 0 and 1, [getVaR]
    returns the negation of the element at the rank
    [floor ((1 - confidenceLevel) * n)], clamped to the last index, of the
    returns in ascending order. The sort fixes that element up to the
    arrangement of equal values ([+0.0] and [-0.0]): the value returned
    is equal ([==]) to the negation of the element at that rank of every
    ascending arrangement of the returns, and such arrangements exist.
    For the five returns of [Desk.history] and the level 0.95 the rank is
    0 and the result is 0.05. *)
Theorem getVaR_historical :
  (∀ (c : float) (xs : list float),
     let m := record_all xs PortfolioManager.init in
     let rs := PortfolioManager.dailyReturns_ m in
     rs ≠ [] -> PrimFloat.leb 0 c = true -> PrimFloat.leb c 1 = true ->
     Forall (fun r => PrimFloat.is_nan r = false) rs ->
     ∃ k v, VaR_rank c (Z.of_nat (length rs)) = Some k
            ∧ PortfolioManager.getVaR c m = Some v
            ∧ (∀ sorted,
                 Permutation sorted rs -> Sorted le64 sorted ->
                 ∃ x, sorted !! Z.to_nat k = Some x
                      ∧ PrimFloat.eqb v (- x) = true)
            ∧ (∃ sorted, Permutation sorted rs ∧ Sorted le64 sorted))
  ∧ VaR_rank 0.95%float 5 = Some 0
  ∧ PortfolioManager.getVaR 0.95%float Desk.portfolio = Some 0.05%float.
Proof.
  split; [| split].
  - intros c xs m rs Hne H0 H1 Hnan.
    destruct (getVaR_reads_rank c m Hne (record_all_short xs) H0 H1)
      as (k & r & Hk & Hrange & Hr & Hv).
    fold rs in Hk, Hrange, Hr.
    pose proof (std_sort_perm rs) as Hperm.
    pose proof (std_sort_sorted rs Hnan) as Hsorted.
    exists k, (- r)%float.
    split; [exact Hk |]. split; [exact Hv |]. split.
    + intros sorted Hp Hs.
      destruct (lookup_lt_is_Some_2 sorted (Z.to_nat k)) as [x Hx].
      { rewrite (Permutation_length Hp). lia. }
      exists x. split; [exact Hx |].
      apply eqb_opp.
      apply (sorted_rank_unique (PortfolioManager.std_sort rs) sorted
               (Z.to_nat k)); try done.
      * by rewrite Hperm.
      * by rewrite Hperm, Hp.
    + by exists (PortfolioManager.std_sort rs).
  - vm_compute. reflexivity.
  - vm_compute. reflexivity.
Qed.

Lemma getVaR_historical_witness :
  ∃ k v, VaR_rank 0.95%float (Z.of_nat (length (PortfolioManager.dailyReturns_
                                            Desk.portfolio))) = Some k
         ∧ PortfolioManager.getVaR 0.95%float Desk.portfolio = Some v
         ∧ (∀ sorted,
              Permutation sorted (PortfolioManager.dailyReturns_ Desk.portfolio)
              -> Sorted le64 sorted ->
              ∃ x, sorted !! Z.to_nat k = Some x
                   ∧ PrimFloat.eqb v (- x) = true)
         ∧ (∃ sorted,
              Permutation sorted (PortfolioManager.dailyReturns_ Desk.portfolio)
              ∧ Sorted le64 sorted).
Proof.
  apply (proj1 getVaR_historical 0.95%float Desk.history).
  - discriminate.
  - reflexivity.
  - reflexivity.
  - repeat constructor.
Defined.

(** C8, as claimed for every history, fails: a history with a NaN, as
    [recordDailyReturn] accepts it, has no ascending order, since a NaN
    compares with no value; so after the returns NaN and [0.01] there is
    no sorted arrangement for [getVaR] to select from. *)
Lemma no_ascending_order_with_nan : ¬ VaR_of_every_history.
Proof.
  intros Hclaim.
  destruct (Hclaim 0.5%float [nan; 0.01%float])
    as (sorted & k & x & Hperm & Hsorted & _); [done | done | done |].
  change (PortfolioManager.dailyReturns_
            (record_all [nan; 0.01%float] PortfolioManager.init))
    with [nan; 0.01%float] in Hperm.
  pose proof (Permutation_length Hperm) as Hlen.
  destruct sorted as [| a [| b [| ? ?]]]; try discriminate Hlen.
  apply Sorted_inv in Hsorted as [_ Hhd].
  apply HdRel_inv in Hhd.
  destruct (leb_is_nan _ _ Hhd) as [Ha Hb].
  assert (nan ∈ [a; b]) as Hin by (rewrite Hperm; by left).
  apply elem_of_cons in Hin as [<- | Hin]; [done |].
  apply elem_of_cons in Hin as [<- | Hin]; [done |].
  by apply elem_of_nil in Hin.
Qed.



(** * Locks and client calls *)

Section Locks.
Context {D : Type} `{Double.Ops D} {C : Type} `{TradingClient.Api D C}.

Implicit Types (w : OrderManager.World D C).

(** Closes [EvVenue ∉ es] for a list [es] that is written out. *)
Ltac no_venue :=
  let Hin := fresh "Hin" in
  intros Hin;
  repeat (apply elem_of_cons in Hin as [Hin | Hin]; [discriminate Hin |]);
  by apply elem_of_nil in Hin.

Lemma events_of_app call w es :
  OrderManager.events (snd (OrderManager.run call w))
  = OrderManager.events w ++ es ->
  events_of call w = es.
Proof. unfold events_of. intros ->. by rewrite drop_app_length. Qed.

Lemma updateOrderStatus_events id s w :
  OrderManager.events (snd (OrderManager.updateOrderStatus id s w))
  = OrderManager.events w
    ++ match OrderManager.orders_ (OrderManager.self w) !! id with
       | Some _ => [EvLock; EvBook; EvBook; EvUnlock]
       | None => [EvLock; EvBook; EvUnlock]
       end.
Proof.
  unfold OrderManager.updateOrderStatus, OrderManager.orders_find, mbind,
    OrderManager.M_bind, OrderManager.get_self. simpl.
  destruct (OrderManager.orders_ (OrderManager.self w) !! id) as [o |];
    simpl; [| by rewrite <- !app_assoc].
  case_bool_decide; simpl; by rewrite <- !app_assoc.
Qed.

(** The events of each call. *)
Lemma events_of_placement call w o :
  placement call (OrderManager.clock w) = Some o ->
  events_of call w
  = if OrderManager.validateOrder (OrderManager.self w) o then
      if (0 <? fst (TradingClient.placeOrder o (OrderManager.client_ w)))%Z
      then [EvVenue; EvLock; EvBook; EvUnlock] else [EvVenue]
    else [].
Proof.
  intros Ho. apply events_of_app. rewrite (run_placement _ _ _ Ho). simpl.
  destruct (OrderManager.validateOrder (OrderManager.self w) o) eqn:Hv.
  - rewrite (submit_valid _ _ Hv).
    destruct (TradingClient.placeOrder o (OrderManager.client_ w)) as [id c].
    simpl. by destruct (0 <? id)%Z.
  - rewrite (submit_invalid _ _ Hv). by rewrite app_nil_r.
Qed.

Lemma events_of_cancel id w :
  events_of (OrderManager.Cancel id) w
  = match OrderManager.orders_ (OrderManager.self w) !! id with
    | None => [EvLock; EvBook; EvUnlock]
    | Some _ =>
        if fst (TradingClient.cancelOrder id (OrderManager.client_ w))
        then [EvLock; EvBook; EvVenue; EvBook; EvUnlock]
        else [EvLock; EvBook; EvVenue; EvUnlock]
    end.
Proof.
  apply events_of_app. simpl. rewrite M_fmap_run, cancelOrder_eq. simpl.
  destruct (OrderManager.orders_ (OrderManager.self w) !! id); [| done].
  by destruct (TradingClient.cancelOrder id (OrderManager.client_ w))
    as [[] c].
Qed.

(** C6. [cancelOrder] on an id that is not in the book returns false,
    leaves the manager and the client as they were and does not call the
    client. On an id that is in the book it looks the order up, calls the
    client, and returns what that call returned. The book is written
    after the client call and only when it returned true: then the stored
    order has the status cancelled, its other fields and the rest of the
    manager as before, and the write is the one book event after the
    client call. When the client returned false no book event follows the
    call, and the manager, the status of the order too, is as it was. *)
Theorem cancelOrder_confirmed_only id w :
  let r := OrderManager.cancelOrder id w in
  let m := OrderManager.self w in
  match OrderManager.orders_ m !! id with
  | None =>
      fst r = false
      ∧ OrderManager.self (snd r) = m
      ∧ OrderManager.client_ (snd r) = OrderManager.client_ w
      ∧ events_of (OrderManager.Cancel id) w = [EvLock; EvBook; EvUnlock]
  | Some o =>
      let confirmed :=
        fst (TradingClient.cancelOrder id (OrderManager.client_ w)) in
      fst r = confirmed
      ∧ OrderManager.client_ (snd r)
        = snd (TradingClient.cancelOrder id (OrderManager.client_ w))
      ∧ (confirmed = true ->
         OrderManager.self (snd r)
         = OrderManager.mk
             (<[id := mkOrder (orderId o) (symbol o) (type o) (side o)
                              (quantity o) (price o) (stopPrice o)
                              CANCELLED (timestamp o)]>
                (OrderManager.orders_ m))
             (OrderManager.maxPositionSize_ m) (OrderManager.maxDailyLoss_ m)
             (OrderManager.dailyPnL_ m) (OrderManager.totalTrades_ m)
             (OrderManager.winningTrades_ m)
         ∧ status <$> OrderManager.orders_ (OrderManager.self (snd r)) !! id
           = Some CANCELLED
         ∧ events_of (OrderManager.Cancel id) w
           = [EvLock; EvBook; EvVenue; EvBook; EvUnlock])
      ∧ (confirmed = false ->
         OrderManager.self (snd r) = m
         ∧ status <$> OrderManager.orders_ (OrderManager.self (snd r)) !! id
           = Some (status o)
         ∧ events_of (OrderManager.Cancel id) w
           = [EvLock; EvBook; EvVenue; EvUnlock])
  end.
Proof.
  intros r m. unfold r, m. rewrite events_of_cancel, cancelOrder_eq.
  destruct (OrderManager.orders_ (OrderManager.self w) !! id) as [o |] eqn:Ho;
    [| done].
  destruct (TradingClient.cancelOrder id (OrderManager.client_ w))
    as [[] c]; cbn [fst snd].
  - split; [done |]. split; [done |]. split; [| done].
    intros _. split; [done |]. split; [| done].
    cbn [OrderManager.self OrderManager.orders_ OrderManager.set_orders].
    by rewrite lookup_insert_eq.
  - split; [done |]. split; [done |]. split; [done |].
    intros _. split; [done |]. split; [| done].
    cbn [OrderManager.self]. by rewrite Ho.
Qed.

Lemma events_of_modify id newOrder w :
  events_of (OrderManager.Modify id newOrder) w
  = match OrderManager.orders_ (OrderManager.self w) !! id with
    | None => [EvLock; EvBook; EvUnlock]
    | Some _ =>
        if OrderManager.validateOrder (OrderManager.self w) newOrder then
          if fst (TradingClient.modifyOrder id newOrder
                    (OrderManager.client_ w))
          then [EvLock; EvBook; EvVenue; EvBook; EvUnlock]
          else [EvLock; EvBook; EvVenue; EvUnlock]
        else [EvLock; EvBook; EvUnlock]
    end.
Proof.
  apply events_of_app. simpl. rewrite M_fmap_run, modifyOrder_eq. simpl.
  destruct (OrderManager.orders_ (OrderManager.self w) !! id); [| done].
  destruct (OrderManager.validateOrder (OrderManager.self w) newOrder);
    [| done].
  by destruct (TradingClient.modifyOrder id newOrder (OrderManager.client_ w))
    as [[] c].
Qed.

Lemma events_of_update id s w :
  events_of (OrderManager.UpdateStatus id s) w
  = match OrderManager.orders_ (OrderManager.self w) !! id with
    | Some _ => [EvLock; EvBook; EvBook; EvUnlock]
    | None => [EvLock; EvBook; EvUnlock]
    end.
Proof.
  apply events_of_app. simpl. unfold mbind, OrderManager.M_bind.
  pose proof (updateOrderStatus_events id s w) as He.
  by destruct (OrderManager.updateOrderStatus id s w) as [[] w'].
Qed.

(** C9, as the code has it. Every call of the order manager and every
    call on the position book touches its table only while it holds the
    mutex of the table, never takes the mutex twice and has released it
    when it returns. The placement functions call the client before they
    take the lock and not while they hold it. [cancelOrder] and
    [modifyOrder] take the lock on entry and, once the id is found (and
    [newOrder] validated), call the client while they hold it. The other
    calls, and the calls on the position book, make no client call. *)
Theorem lock_discipline :
  (∀ (call : OrderManager.Call D) w,
     book_inside false (events_of call w) = true
     ∧ match call with
       | OrderManager.PlaceMarket _ _ _ | OrderManager.PlaceLimit _ _ _ _
       | OrderManager.PlaceStop _ _ _ _
       | OrderManager.PlaceStopLimit _ _ _ _ _ =>
           venue_first (events_of call w) = true
           ∧ venue_outside false (events_of call w) = true
       | OrderManager.Cancel id =>
           is_Some (OrderManager.orders_ (OrderManager.self w) !! id) ->
           venue_outside false (events_of call w) = false
       | OrderManager.Modify id newOrder =>
           is_Some (OrderManager.orders_ (OrderManager.self w) !! id) ->
           OrderManager.validateOrder (OrderManager.self w) newOrder = true ->
           venue_outside false (events_of call w) = false
       | _ => EvVenue ∉ events_of call w
       end)
  ∧ (∀ (call : PortfolioManager.Call D) m,
       book_inside false (position_events call m) = true
       ∧ EvVenue ∉ position_events call m).
Proof.
  split.
  - intros call w.
    destruct (placement call (OrderManager.clock w)) as [o |] eqn:Hp.
    + rewrite (events_of_placement _ _ _ Hp).
      assert (∀ es, book_inside false es = true
                    ∧ venue_first es = true
                      ∧ venue_outside false es = true
                    -> book_inside false es = true
                       ∧ match call with
                         | OrderManager.PlaceMarket _ _ _
                         | OrderManager.PlaceLimit _ _ _ _
                         | OrderManager.PlaceStop _ _ _ _
                         | OrderManager.PlaceStopLimit _ _ _ _ _ =>
                             venue_first es = true
                             ∧ venue_outside false es = true
                         | OrderManager.Cancel id =>
                             is_Some (OrderManager.orders_
                                        (OrderManager.self w) !! id) ->
                             venue_outside false es = false
                         | OrderManager.Modify id newOrder =>
                             is_Some (OrderManager.orders_
                                        (OrderManager.self w) !! id) ->
                             OrderManager.validateOrder
                               (OrderManager.self w) newOrder = true ->
                             venue_outside false es = false
                         | _ => EvVenue ∉ es
                         end) as Hcase
        by (destruct call; simpl in Hp; try discriminate; tauto).
      apply Hcase.
      destruct (OrderManager.validateOrder (OrderManager.self w) o);
        [| done].
      by destruct (0 <? _)%Z.
    + destruct call
        as [| | | | id | id newOrder | id s | ty sd id | | s | s | v | v];
        simpl in Hp; try discriminate.
      * rewrite events_of_cancel.
        destruct (OrderManager.orders_ (OrderManager.self w) !! id).
        -- destruct (TradingClient.cancelOrder id (OrderManager.client_ w)).1;
             done.
        -- split; [done |]. by intros [? ?].
      * rewrite events_of_modify.
        destruct (OrderManager.orders_ (OrderManager.self w) !! id).
        -- destruct (OrderManager.validateOrder (OrderManager.self w) newOrder).
           ++ destruct (TradingClient.modifyOrder id newOrder
                          (OrderManager.client_ w)).1; done.
           ++ done.
        -- split; [done |]. by intros [? ?].
      * rewrite events_of_update.
        destruct (OrderManager.orders_ (OrderManager.self w) !! id);
          (split; [done |]); no_venue.
      * rewrite (events_of_app _ _ [EvLock; EvBook; EvUnlock])
          by (simpl; by rewrite <- !app_assoc).
        split; [done | no_venue].
      * rewrite (events_of_app _ _ [EvLock; EvBook; EvUnlock])
          by (simpl; by rewrite <- !app_assoc).
        split; [done | no_venue].
      * rewrite (events_of_app _ _ [EvLock; EvBook; EvUnlock])
          by (simpl; by rewrite <- !app_assoc).
        split; [done | no_venue].
      * rewrite (events_of_app _ _ [EvLock; EvBook; EvUnlock])
          by (simpl; by rewrite <- !app_assoc).
        split; [done | no_venue].
      * rewrite (events_of_app _ _ []) by (by rewrite app_nil_r).
        split; [done | no_venue].
      * rewrite (events_of_app _ _ []) by (by rewrite app_nil_r).
        split; [done | no_venue].
  - intros call m. destruct call; (split; [done |]);
      unfold position_events; simpl; no_venue.
Qed.

End Locks.

Lemma lock_discipline_witness :
  venue_outside false (events_of (OrderManager.Cancel 1001) Desk.placed)
  = false.
Proof.
  apply (proj1 lock_discipline (OrderManager.Cancel 1001) Desk.placed).
  vm_compute. by eexists.
Defined.

(** C9, as claimed, fails: [cancelOrder] on the order stored in
    [Desk.placed] locks, finds the order, and calls the client before it
    unlocks. *)
Lemma venue_called_under_lock : ¬ venue_never_under_lock.
Proof.
  intros Hclaim.
  destruct (Hclaim Desk.placed (OrderManager.Cancel 1001)) as [Hout _].
  vm_compute in Hout. discriminate Hout.
Qed.

(** * The order book: placements, queries and statistics *)

Section OrderBookMore.
Context {D : Type} `{Double.Ops D} {C : Type} `{TradingClient.Api D C}.

Local Open Scope double_scope.

Implicit Types (w : OrderManager.World D C) (o : Order D).

Lemma getOrder_eq ty sd id w :
  OrderManager.getOrder ty sd id w
  = (default (mkOrder 0%Z EmptyString ty sd 0 0 0 PENDING 0%Z)
             (OrderManager.orders_ (OrderManager.self w) !! id),
     OrderManager.mkWorld (OrderManager.self w) (OrderManager.client_ w)
       (OrderManager.clock w)
       (OrderManager.events w ++ [EvLock; EvBook; EvUnlock])).
Proof.
  unfold OrderManager.getOrder, OrderManager.orders_find, mbind,
    OrderManager.M_bind, OrderManager.get_self. simpl.
  by rewrite <- !app_assoc.
Qed.

(** X1. A placement whose order passes [validateOrder] and for which the
    client returns a positive id returns that id and stores the order
    under it, pending and with the id attached; the rest of the book and
    of the manager stays, and [getOrder] on the id then returns the
    order. *)
Theorem placement_accepted call w o :
  placement call (OrderManager.clock w) = Some o ->
  OrderManager.validateOrder (OrderManager.self w) o = true ->
  (0 < fst (TradingClient.placeOrder o (OrderManager.client_ w)))%Z ->
  let id := fst (TradingClient.placeOrder o (OrderManager.client_ w)) in
  let stored := mkOrder id (symbol o) (type o) (side o) (quantity o) (price o)
                        (stopPrice o) PENDING (OrderManager.clock w) in
  let w' := snd (OrderManager.run call w) in
  fst (OrderManager.run call w) = OrderManager.RId id
  ∧ OrderManager.self w'
    = OrderManager.set_orders (OrderManager.self w)
        (<[id := stored]> (OrderManager.orders_ (OrderManager.self w)))
  ∧ ∀ ty sd, fst (OrderManager.getOrder ty sd id w') = stored.
Proof.
  intros Ho Hv Hid id stored w'.
  assert (set_orderId o id = stored) as Hstored.
  { unfold stored, set_orderId.
    destruct call; simpl in Ho; try discriminate; by injection Ho as <-. }
  assert (OrderManager.run call w
          = (OrderManager.RId id,
             OrderManager.mkWorld
               (OrderManager.set_orders (OrderManager.self w)
                  (<[id := stored]>
                     (OrderManager.orders_ (OrderManager.self w))))
               (snd (TradingClient.placeOrder o (OrderManager.client_ w)))
               (OrderManager.clock w)
               (OrderManager.events w
                  ++ [EvVenue; EvLock; EvBook; EvUnlock]))) as Hrun.
  { rewrite (run_placement _ _ _ Ho), (submit_valid _ _ Hv).
    unfold id in *.
    destruct (TradingClient.placeOrder o (OrderManager.client_ w))
      as [r c]. simpl in *.
    apply Z.ltb_lt in Hid. rewrite Hid. simpl. by rewrite Hstored. }
  unfold w'. rewrite Hrun. cbn [fst snd]. split; [done |]. split; [done |].
  intros ty sd. rewrite getOrder_eq. simpl. by rewrite lookup_insert_eq.
Qed.

Lemma t_eta (m : OrderManager.t D) :
  m = OrderManager.mk (OrderManager.orders_ m)
        (OrderManager.maxPositionSize_ m) (OrderManager.maxDailyLoss_ m)
        (OrderManager.dailyPnL_ m) (OrderManager.totalTrades_ m)
        (OrderManager.winningTrades_ m).
Proof. by destruct m. Qed.

Lemma updateOrderStatus_self id s w :
  OrderManager.self (snd (OrderManager.updateOrderStatus id s w))
  = match OrderManager.orders_ (OrderManager.self w) !! id with
    | None => OrderManager.self w
    | Some o =>
        OrderManager.mk
          (<[id := set_status o s]>
             (OrderManager.orders_ (OrderManager.self w)))
          (OrderManager.maxPositionSize_ (OrderManager.self w))
          (OrderManager.maxDailyLoss_ (OrderManager.self w))
          (OrderManager.dailyPnL_ (OrderManager.self w))
          (if bool_decide (s = FILLED)
           then Int.wrap (OrderManager.totalTrades_ (OrderManager.self w) + 1)
           else OrderManager.totalTrades_ (OrderManager.self w))
          (OrderManager.winningTrades_ (OrderManager.self w))
    end.
Proof.
  unfold OrderManager.updateOrderStatus, OrderManager.orders_find, mbind,
    OrderManager.M_bind, OrderManager.get_self. simpl.
  destruct (OrderManager.orders_ (OrderManager.self w) !! id) as [o |];
    simpl; [| done].
  by case_bool_decide.
Qed.

(** The manager after a call: the book may change, the limits change with
    their setters, the trade count with [updateOrderStatus]. *)
Lemma run_self call w :
  ∃ orders' trades',
    OrderManager.self (snd (OrderManager.run call w))
    = OrderManager.mk orders'
        (match call with
         | OrderManager.SetMaxPositionSize v => v
         | _ => OrderManager.maxPositionSize_ (OrderManager.self w)
         end)
        (match call with
         | OrderManager.SetMaxDailyLoss v => v
         | _ => OrderManager.maxDailyLoss_ (OrderManager.self w)
         end)
        (OrderManager.dailyPnL_ (OrderManager.self w))
        trades'
        (OrderManager.winningTrades_ (OrderManager.self w))
    ∧ trades'
      = match call with
        | OrderManager.UpdateStatus id FILLED =>
            match OrderManager.orders_ (OrderManager.self w) !! id with
            | Some _ =>
                Int.wrap (OrderManager.totalTrades_ (OrderManager.self w) + 1)
            | None => OrderManager.totalTrades_ (OrderManager.self w)
            end
        | _ => OrderManager.totalTrades_ (OrderManager.self w)
        end.
Proof.
  pose proof (t_eta (OrderManager.self w)) as Heta.
  destruct (placement call (OrderManager.clock w)) as [o |] eqn:Hp.
  - rewrite (run_placement _ _ _ Hp). cbn [snd].
    assert (∃ orders', OrderManager.self (snd (OrderManager.submit o w))
                       = OrderManager.set_orders (OrderManager.self w) orders')
      as [orders' ->].
    { destruct (OrderManager.validateOrder (OrderManager.self w) o) eqn:Hv.
      - rewrite (submit_valid _ _ Hv).
        destruct (TradingClient.placeOrder o (OrderManager.client_ w))
          as [r c]. cbn [snd].
        destruct (0 <? r)%Z; by eexists.
      - rewrite (submit_invalid _ _ Hv). by eexists. }
    eexists _, _. split; [| reflexivity]. by destruct call.
  - destruct call
      as [| | | | id | id newOrder | id s | ty sd id | | s | s | v | v];
      simpl in Hp; try discriminate; cbn [OrderManager.run].
    + rewrite M_fmap_run, cancelOrder_eq. cbn [snd].
      destruct (OrderManager.orders_ (OrderManager.self w) !! id);
        [destruct (TradingClient.cancelOrder id (OrderManager.client_ w))
           as [[] c] |];
        cbn [snd OrderManager.self]; by eexists _, _.
    + rewrite M_fmap_run, modifyOrder_eq. cbn [snd].
      destruct (OrderManager.orders_ (OrderManager.self w) !! id);
        [destruct (OrderManager.validateOrder (OrderManager.self w) newOrder);
         [destruct (TradingClient.modifyOrder id newOrder
                      (OrderManager.client_ w)) as [[] c] |] |];
        cbn [snd OrderManager.self]; by eexists _, _.
    + unfold mbind, OrderManager.M_bind, mret, OrderManager.M_ret.
      pose proof (updateOrderStatus_self id s w) as Hu.
      destruct (OrderManager.updateOrderStatus id s w) as [[] w'].
      cbn [snd] in *. rewrite Hu.
      destruct (OrderManager.orders_ (OrderManager.self w) !! id).
      * eexists _, _. split; [reflexivity |]. by destruct s.
      * eexists _, _. split; [exact Heta |]. by destruct s.
    + rewrite M_fmap_run, getOrder_eq. cbn. by eexists _, _.
    + cbn. by eexists _, _.
    + cbn. by eexists _, _.
    + cbn. by eexists _, _.
    + cbn. by eexists _, _.
    + cbn. by eexists _, _.
Qed.

(** X4. What one call does to the limits and the statistics: only
    [setMaxPositionSize] and [setMaxDailyLoss] change their limit, to the
    value passed; the trade count goes up by one exactly on
    [updateOrderStatus] with the status filled on an id of the book, every
    time it is called so; the daily PnL and the count of winning trades
    never change. *)
Theorem statistics_after_call call w :
  let m := OrderManager.self w in
  let m' := OrderManager.self (snd (OrderManager.run call w)) in
  OrderManager.maxPositionSize_ m'
  = match call with
    | OrderManager.SetMaxPositionSize v => v
    | _ => OrderManager.maxPositionSize_ m
    end
  ∧ OrderManager.maxDailyLoss_ m'
    = match call with
      | OrderManager.SetMaxDailyLoss v => v
      | _ => OrderManager.maxDailyLoss_ m
      end
  ∧ OrderManager.getTotalTrades m'
    = match call with
      | OrderManager.UpdateStatus id FILLED =>
          match OrderManager.orders_ m !! id with
          | Some _ => Int.wrap (OrderManager.getTotalTrades m + 1)
          | None => OrderManager.getTotalTrades m
          end
      | _ => OrderManager.getTotalTrades m
      end
  ∧ OrderManager.getDailyPnL m' = OrderManager.getDailyPnL m
  ∧ OrderManager.winningTrades_ m' = OrderManager.winningTrades_ m.
Proof.
  intros m m'. destruct (run_self call w) as (orders' & trades' & Hm' & ->).
  unfold m'. by rewrite Hm'.
Qed.

(** X5. After any calls on a fresh manager the daily PnL is the initial
    zero and no trade has been counted as won: [getDailyPnL] returns 0 and
    [getWinRate] returns 0 without trades and [0 / totalTrades_]
    otherwise. *)
Theorem statistics_never_updated w :
  reachable w ->
  OrderManager.getDailyPnL (OrderManager.self w) = 0
  ∧ OrderManager.winningTrades_ (OrderManager.self w) = 0%Z
  ∧ OrderManager.getWinRate (OrderManager.self w)
    = if (OrderManager.getTotalTrades (OrderManager.self w) =? 0)%Z then 0
      else 0 / Double.of_int (OrderManager.getTotalTrades (OrderManager.self w)).
Proof.
  intros Hreach.
  assert (OrderManager.dailyPnL_ (OrderManager.self w) = 0
          ∧ OrderManager.winningTrades_ (OrderManager.self w) = 0%Z)
    as [Hpnl Hwin].
  { induction Hreach as [c now | w call Hreach [IHp IHw]]; [done |].
    destruct (run_self call w) as (orders' & trades' & -> & _). done. }
  split; [done |]. split; [done |].
  unfold OrderManager.getWinRate, OrderManager.getTotalTrades.
  by rewrite Hwin.
Qed.

Lemma book_keyed_insert (orders : gmap Z (Order D)) id o :
  book_keyed orders -> orderId o = id -> (0 < id)%Z ->
  book_keyed (<[id := o]> orders).
Proof.
  intros Hk Hid Hpos id' o' Hlook.
  destruct (decide (id = id')) as [<- | Hne].
  - rewrite lookup_insert_eq in Hlook. by injection Hlook as <-.
  - rewrite lookup_insert_ne in Hlook by done. by apply Hk.
Qed.

Lemma book_keyed_step call w :
  book_keyed (OrderManager.orders_ (OrderManager.self w)) ->
  book_keyed (OrderManager.orders_
                (OrderManager.self (snd (OrderManager.run call w)))).
Proof.
  intros Hk.
  destruct (placement call (OrderManager.clock w)) as [o |] eqn:Hp.
  - destruct (run_placement_orders _ _ _ Hp) as (r & _ & ->).
    destruct (0 <? r)%Z eqn:Hr; [| done].
    apply book_keyed_insert; [done | done |]. by apply Z.ltb_lt.
  - destruct call
      as [| | | | id | id newOrder | id s | ty sd id | | s | s | v | v];
      simpl in Hp; try discriminate; cbn [OrderManager.run]; try done.
    + rewrite M_fmap_run, cancelOrder_eq. cbn [snd].
      destruct (OrderManager.orders_ (OrderManager.self w) !! id)
        as [o |] eqn:Ho; [| done].
      destruct (TradingClient.cancelOrder id (OrderManager.client_ w))
        as [[] c]; [| done].
      apply book_keyed_insert; [done | by apply (Hk id o) ..].
    + rewrite M_fmap_run, modifyOrder_eq. cbn [snd].
      destruct (OrderManager.orders_ (OrderManager.self w) !! id)
        as [o |] eqn:Ho; [| done].
      destruct (OrderManager.validateOrder (OrderManager.self w) newOrder);
        [| done].
      destruct (TradingClient.modifyOrder id newOrder (OrderManager.client_ w))
        as [[] c]; [| done].
      apply book_keyed_insert; [done | done | by apply (Hk id o)].
    + unfold mbind, OrderManager.M_bind, mret, OrderManager.M_ret.
      pose proof (updateOrderStatus_orders id s w) as Hu.
      destruct (OrderManager.updateOrderStatus id s w) as [[] w'].
      cbn [snd] in *. rewrite Hu.
      destruct (OrderManager.orders_ (OrderManager.self w) !! id)
        as [o |] eqn:Ho; [| done].
      apply book_keyed_insert; [done | by apply (Hk id o) ..].
Qed.

(** X2. In every world the calls reach from a fresh manager, each order
    of the book is stored under its own id, and that id is positive. So
    [getOrder] tells a missing id from a stored one: it returns an order
    with the id 0 exactly when the id is not in the book, and an order
    that carries the id asked for otherwise. *)
Theorem book_keyed_by_id w :
  reachable w ->
  book_keyed (OrderManager.orders_ (OrderManager.self w))
  ∧ ∀ ty sd id,
      (OrderManager.orders_ (OrderManager.self w) !! id = None
       ↔ orderId (fst (OrderManager.getOrder ty sd id w)) = 0%Z)
      ∧ (is_Some (OrderManager.orders_ (OrderManager.self w) !! id)
         -> orderId (fst (OrderManager.getOrder ty sd id w)) = id).
Proof.
  intros Hreach.
  assert (book_keyed (OrderManager.orders_ (OrderManager.self w))) as Hk.
  { induction Hreach as [c now | w call Hreach IH].
    - intros id o Hlook. simpl in Hlook. by rewrite lookup_empty in Hlook.
    - by apply book_keyed_step. }
  split; [exact Hk |].
  intros ty sd id. rewrite getOrder_eq. cbn [fst].
  destruct (OrderManager.orders_ (OrderManager.self w) !! id) as [o |] eqn:Ho;
    unfold default, from_option, Datatypes.id.
  - destruct (Hk id o Ho) as [Hid Hpos]. split; [| done].
    split; [done | intros Hzero; exfalso; lia].
  - split; [done | by intros [? ?]].
Qed.


End OrderBookMore.

(** * The simulated client and the limits *)

(** [q * 0.0] is a zero or a NaN, and is not above a limit that is not
    negative. *)
Lemma mul_zero_not_above (q limit : float) :
  PrimFloat.leb 0 limit = true ->
  PrimFloat.ltb limit (PrimFloat.mul q 0) = false.
Proof.
  rewrite FloatAxioms.leb_spec, FloatAxioms.ltb_spec, FloatAxioms.mul_spec.
  replace (Prim2SF 0%float) with (S754_zero false)
    by (vm_compute; reflexivity).
  unfold SFleb, SFltb, FloatAxioms.SF64mul.
  destruct (Prim2SF limit) as [sl | sl | | sl ml el],
    (Prim2SF q) as [sq | sq | | sq mq eq]; simpl; try done;
    by destruct sl.
Qed.

(** X6. The position-size limit does not bound market and stop orders:
    they carry the price zero, so while the limit is not negative and the
    daily-loss test passes, [validateOrder] accepts a market order with a
    symbol and a quantity above zero whatever the quantity, and a stop
    order when its stop price is above zero too. *)
Theorem market_orders_unbounded (m : OrderManager.t float) s sd q sp now :
  PrimFloat.leb 0 (OrderManager.maxPositionSize_ m) = true ->
  PrimFloat.ltb (OrderManager.dailyPnL_ m) (- OrderManager.maxDailyLoss_ m)
  = false ->
  s ≠ EmptyString -> PrimFloat.leb q 0 = false ->
  OrderManager.validateOrder m
    (mkOrder 0 s MARKET sd q 0%float 0%float PENDING now) = true
  ∧ (PrimFloat.leb sp 0 = false ->
     OrderManager.validateOrder m
       (mkOrder 0 s STOP sd q 0%float sp PENDING now) = true).
Proof.
  intros Hlim Hpnl Hs Hq.
  assert (∀ o : Order float,
            price o = 0%float -> OrderManager.checkRiskLimits m o = true)
    as Hrisk.
  { intros o Hp. unfold OrderManager.checkRiskLimits. rewrite Hp.
    change (Double.ltb (OrderManager.maxPositionSize_ m)
                       (quantity o * 0%float)%D)
      with (PrimFloat.ltb (OrderManager.maxPositionSize_ m)
                          (PrimFloat.mul (quantity o) 0)).
    rewrite (mul_zero_not_above _ _ Hlim).
    change (Double.ltb (OrderManager.dailyPnL_ m)
                       (- OrderManager.maxDailyLoss_ m)%D)
      with (PrimFloat.ltb (OrderManager.dailyPnL_ m)
                          (- OrderManager.maxDailyLoss_ m)).
    by rewrite Hpnl. }
  split.
  - rewrite validateOrder_well_formed; [by apply Hrisk |].
    unfold malformed. cbn [symbol quantity type price stopPrice].
    change (Double.leb q 0%D) with (PrimFloat.leb q 0). rewrite Hq.
    intros [? | [? | [[[? | ?] _] | [[? | ?] _]]]]; done.
  - intros Hsp. rewrite validateOrder_well_formed; [by apply Hrisk |].
    unfold malformed. cbn [symbol quantity type price stopPrice].
    change (Double.leb q 0%D) with (PrimFloat.leb q 0).
    change (Double.leb sp 0%D) with (PrimFloat.leb sp 0).
    rewrite Hq, Hsp.
    intros [? | [? | [[[? | ?] _] | [_ ?]]]]; done.
Qed.

Lemma market_orders_unbounded_witness :
  OrderManager.validateOrder OrderManager.init
    (mkOrder 0 "X" MARKET BUY 1e300%float 0%float 0%float PENDING 0) = true
  ∧ (PrimFloat.leb 1%float 0 = false ->
     OrderManager.validateOrder OrderManager.init
       (mkOrder 0 "X" STOP BUY 1e300%float 0%float 1%float PENDING 0) = true).
Proof.
  apply (market_orders_unbounded OrderManager.init "X" BUY 1e300%float
           1%float 0); try reflexivity.
  discriminate.
Defined.

Section SimulatedClient.
Context {D : Type} `{Double.Ops D}.

Implicit Types (w : OrderManager.World D TradingClient.Impl).

(** The simulated client changes only in [placeOrder], and only when it
    is connected. *)
Lemma run_client call w :
  OrderManager.client_ (snd (OrderManager.run call w))
  = match placement call (OrderManager.clock w) with
    | Some o =>
        if OrderManager.validateOrder (OrderManager.self w) o
        then snd (TradingClient.Impl_placeOrder o (OrderManager.client_ w))
        else OrderManager.client_ w
    | None => OrderManager.client_ w
    end.
Proof.
  destruct (placement call (OrderManager.clock w)) as [o |] eqn:Hp.
  - rewrite (run_placement _ _ _ Hp). cbn [snd].
    destruct (OrderManager.validateOrder (OrderManager.self w) o) eqn:Hv.
    + rewrite (submit_valid _ _ Hv).
      change (TradingClient.placeOrder o (OrderManager.client_ w))
        with (TradingClient.Impl_placeOrder o (OrderManager.client_ w)).
      destruct (TradingClient.Impl_placeOrder o (OrderManager.client_ w))
        as [r c]. cbn [snd]. by destruct (0 <? r).
    + by rewrite (submit_invalid _ _ Hv).
  - destruct call
      as [| | | | id | id newOrder | id s | ty sd id | | s | s | v | v];
      simpl in Hp; try discriminate; cbn [OrderManager.run]; try done.
    + rewrite M_fmap_run, cancelOrder_eq. cbn [snd].
      destruct (OrderManager.orders_ (OrderManager.self w) !! id);
        [| done].
      change (TradingClient.cancelOrder id (OrderManager.client_ w))
        with (TradingClient.Impl_cancelOrder id (OrderManager.client_ w)).
      unfold TradingClient.Impl_cancelOrder.
      by destruct (TradingClient.connected_ (OrderManager.client_ w)).
    + rewrite M_fmap_run, modifyOrder_eq. cbn [snd].
      destruct (OrderManager.orders_ (OrderManager.self w) !! id);
        [| done].
      destruct (OrderManager.validateOrder (OrderManager.self w) newOrder);
        [| done].
      change (TradingClient.modifyOrder id newOrder (OrderManager.client_ w))
        with (TradingClient.Impl_modifyOrder id newOrder
                (OrderManager.client_ w)).
      unfold TradingClient.Impl_modifyOrder.
      by destruct (TradingClient.connected_ (OrderManager.client_ w)).
    + unfold mbind, OrderManager.M_bind, mret, OrderManager.M_ret.
      unfold OrderManager.updateOrderStatus, OrderManager.orders_find, mbind,
        OrderManager.M_bind, OrderManager.get_self. simpl.
      destruct (OrderManager.orders_ (OrderManager.self w) !! id); [| done].
      simpl. by case_bool_decide.
Qed.

(** The queries and the setters leave the book as it is. *)
Lemma run_orders_same call w :
  match call with
  | OrderManager.GetOrder _ _ _ | OrderManager.GetAllOrders
  | OrderManager.GetOrdersBySymbol _ | OrderManager.GetOrdersByStatus _
  | OrderManager.SetMaxPositionSize _ | OrderManager.SetMaxDailyLoss _ => True
  | _ => False
  end ->
  OrderManager.orders_ (OrderManager.self (snd (OrderManager.run call w)))
  = OrderManager.orders_ (OrderManager.self w).
Proof. by destruct call. Qed.

Lemma wrap_small z : - 2 ^ 31 <= z < 2 ^ 31 -> Int.wrap z = z.
Proof. intros Hz. unfold Int.wrap. rewrite Z.mod_small; lia. Qed.

(** One call keeps the ids of the book at or below the counter, and moves
    the counter up by at most one. *)
Lemma ids_issued_step call w :
  ids_issued w ->
  0 <= TradingClient.nextOrderId (OrderManager.client_ w) < Int.INT_MAX ->
  ids_issued (snd (OrderManager.run call w))
  ∧ TradingClient.nextOrderId (OrderManager.client_ w)
    <= TradingClient.nextOrderId
         (OrderManager.client_ (snd (OrderManager.run call w)))
    <= TradingClient.nextOrderId (OrderManager.client_ w) + 1
  ∧ TradingClient.connected_
      (OrderManager.client_ (snd (OrderManager.run call w)))
    = TradingClient.connected_ (OrderManager.client_ w).
Proof.
  intros Hids Hn. unfold Int.INT_MAX in Hn.
  assert (TradingClient.nextOrderId (OrderManager.client_ w)
          <= TradingClient.nextOrderId
               (OrderManager.client_ (snd (OrderManager.run call w)))
          <= TradingClient.nextOrderId (OrderManager.client_ w) + 1
          ∧ TradingClient.connected_
              (OrderManager.client_ (snd (OrderManager.run call w)))
            = TradingClient.connected_ (OrderManager.client_ w)) as Hc.
  { rewrite run_client.
    destruct (placement call (OrderManager.clock w)) as [o |];
      [| split; [lia | done]].
    destruct (OrderManager.validateOrder (OrderManager.self w) o);
      [| split; [lia | done]].
    unfold TradingClient.Impl_placeOrder.
    destruct (TradingClient.connected_ (OrderManager.client_ w)) eqn:Hconn;
      cbn [negb snd TradingClient.nextOrderId TradingClient.connected_];
      [| split; [lia | done]].
    rewrite wrap_small by lia. split; [lia | done]. }
  split; [| exact Hc]. destruct Hc as [Hc _].
  intros id o' Hlook.
  destruct (placement call (OrderManager.clock w)) as [o |] eqn:Hp.
  - destruct (run_placement_orders _ _ _ Hp) as (r & Hr & Hos).
    rewrite Hos in Hlook.
    destruct (0 <? r) eqn:Hpos; [| specialize (Hids _ _ Hlook); lia].
    destruct (decide (r = id)) as [<- | Hne];
      [| rewrite lookup_insert_ne in Hlook by done;
         specialize (Hids _ _ Hlook); lia].
    (* the id just placed is the new counter *)
    revert Hr Hc. rewrite run_client, Hp, (run_placement _ _ _ Hp). cbn [fst].
    destruct (OrderManager.validateOrder (OrderManager.self w) o) eqn:Hv.
    + rewrite (submit_valid _ _ Hv).
      change (TradingClient.placeOrder o (OrderManager.client_ w))
        with (TradingClient.Impl_placeOrder o (OrderManager.client_ w)).
      unfold TradingClient.Impl_placeOrder.
      destruct (TradingClient.connected_ (OrderManager.client_ w));
        cbn [negb fst snd TradingClient.nextOrderId]; intros [= <-]; lia.
    + rewrite (submit_invalid _ _ Hv). cbn [fst]. intros [= <-].
      apply Z.ltb_lt in Hpos. lia.
  - assert (∃ o0, OrderManager.orders_ (OrderManager.self w) !! id = Some o0)
      as [o0 Ho0].
    { destruct (OrderManager.orders_ (OrderManager.self w) !! id)
        as [o0 |] eqn:Ho0; [by eexists |].
      exfalso. revert Hlook.
      destruct call
        as [| | | | id' | id' newOrder | id' s | ty sd id' | | s | s | v | v];
        simpl in Hp; try discriminate;
        try (by rewrite run_orders_same, Ho0);
        cbn [OrderManager.run].
      - rewrite M_fmap_run, cancelOrder_eq. cbn [snd].
        destruct (OrderManager.orders_ (OrderManager.self w) !! id')
          as [o1 |] eqn:Ho1; [| cbn; by rewrite Ho0].
        destruct (TradingClient.cancelOrder id' (OrderManager.client_ w))
          as [[] c]; cbn; [| by rewrite Ho0].
        destruct (decide (id' = id)) as [-> | Hne]; [congruence |].
        rewrite lookup_insert_ne by done. by rewrite Ho0.
      - rewrite M_fmap_run, modifyOrder_eq. cbn [snd].
        destruct (OrderManager.orders_ (OrderManager.self w) !! id')
          as [o1 |] eqn:Ho1; [| cbn; by rewrite Ho0].
        destruct (OrderManager.validateOrder (OrderManager.self w) newOrder);
          [| cbn; by rewrite Ho0].
        destruct (TradingClient.modifyOrder id' newOrder
                    (OrderManager.client_ w)) as [[] c];
          cbn; [| by rewrite Ho0].
        destruct (decide (id' = id)) as [-> | Hne]; [congruence |].
        rewrite lookup_insert_ne by done. by rewrite Ho0.
      - unfold mbind, OrderManager.M_bind, mret, OrderManager.M_ret.
        pose proof (updateOrderStatus_orders id' s w) as Hu.
        destruct (OrderManager.updateOrderStatus id' s w) as [[] w'].
        cbn [snd] in *. rewrite Hu.
        destruct (OrderManager.orders_ (OrderManager.self w) !! id')
          as [o1 |] eqn:Ho1; [| by rewrite Ho0].
        destruct (decide (id' = id)) as [-> | Hne]; [congruence |].
        rewrite lookup_insert_ne by done. by rewrite Ho0. }
    specialize (Hids _ _ Ho0). lia.
Qed.

Lemma ids_issued_run_all cs w :
  ids_issued w ->
  0 <= TradingClient.nextOrderId (OrderManager.client_ w) ->
  TradingClient.nextOrderId (OrderManager.client_ w) + Z.of_nat (length cs)
  < Int.INT_MAX ->
  ids_issued (OrderManager.run_all cs w)
  ∧ TradingClient.nextOrderId (OrderManager.client_ w)
    <= TradingClient.nextOrderId
         (OrderManager.client_ (OrderManager.run_all cs w))
    <= TradingClient.nextOrderId (OrderManager.client_ w)
       + Z.of_nat (length cs)
  ∧ TradingClient.connected_
      (OrderManager.client_ (OrderManager.run_all cs w))
    = TradingClient.connected_ (OrderManager.client_ w).
Proof.
  revert w. induction cs as [| call cs IH]; intros w Hids H0 Hmax.
  - simpl. split; [done |]. split; [lia | done].
  - change (OrderManager.run_all (call :: cs) w)
      with (OrderManager.run_all cs (snd (OrderManager.run call w))).
    simpl length in *.
    destruct (ids_issued_step call w Hids) as (Hids' & Hn' & Hconn');
      [lia |].
    destruct (IH (snd (OrderManager.run call w)) Hids') as (? & ? & ?);
      [lia | lia |].
    split; [done |]. split; [lia | congruence].
Qed.

(** X7. On the simulated client, connected, an id is never used twice:
    after fewer than [2 ^ 30] calls on a fresh manager, a placement whose
    order passes [validateOrder] returns an id above 1000 that is not in
    the book, and the book then holds the order under it, one order more
    than before. *)
Theorem ids_never_reused (cs : list (OrderManager.Call D)) now call o :
  Z.of_nat (length cs) < 2 ^ 30 ->
  let w := OrderManager.run_all cs
             (OrderManager.mkWorld OrderManager.init
                (TradingClient.mkImpl true 1000) now []) in
  placement call (OrderManager.clock w) = Some o ->
  OrderManager.validateOrder (OrderManager.self w) o = true ->
  ∃ id, fst (OrderManager.run call w) = OrderManager.RId id
        ∧ 1000 < id
        ∧ OrderManager.orders_ (OrderManager.self w) !! id = None
        ∧ OrderManager.orders_
            (OrderManager.self (snd (OrderManager.run call w)))
          = <[id := set_orderId o id]>
              (OrderManager.orders_ (OrderManager.self w))
        ∧ size (OrderManager.orders_
                  (OrderManager.self (snd (OrderManager.run call w))))
          = S (size (OrderManager.orders_ (OrderManager.self w))).
Proof.
  intros Hlen w Hp Hv.
  destruct (ids_issued_run_all cs
              (OrderManager.mkWorld OrderManager.init
                 (TradingClient.mkImpl true 1000) now []))
    as (Hids & Hn & Hconn).
  { intros id o' Hlook. simpl in Hlook. by rewrite lookup_empty in Hlook. }
  { simpl. lia. }
  { simpl. unfold Int.INT_MAX. assert (2 ^ 30 < 2 ^ 31 - 1001) by done. lia. }
  fold w in Hids, Hn, Hconn. simpl in Hn, Hconn.
  set (n := TradingClient.nextOrderId (OrderManager.client_ w)) in *.
  assert (2 ^ 30 < 2 ^ 31 - 1001) by done.
  assert (TradingClient.placeOrder o (OrderManager.client_ w)
          = (n + 1, TradingClient.mkImpl true (n + 1))) as Hplace.
  { change (TradingClient.placeOrder o (OrderManager.client_ w))
      with (TradingClient.Impl_placeOrder o (OrderManager.client_ w)).
    unfold TradingClient.Impl_placeOrder. rewrite Hconn. cbn [negb].
    fold n. by rewrite wrap_small by lia. }
  assert (OrderManager.orders_ (OrderManager.self w) !! (n + 1) = None)
    as Hfresh.
  { destruct (OrderManager.orders_ (OrderManager.self w) !! (n + 1))
      as [o' |] eqn:Hlook; [| done].
    specialize (Hids _ _ Hlook). fold n in Hids. lia. }
  exists (n + 1).
  rewrite (run_placement _ _ _ Hp), (submit_valid _ _ Hv), Hplace.
  cbn [fst snd].
  replace (0 <? n + 1) with true by (symmetry; apply Z.ltb_lt; lia).
  cbn [OrderManager.self OrderManager.set_orders OrderManager.orders_].
  split; [done |]. split; [lia |]. split; [done |]. split; [done |].
  by apply map_size_insert_None.
Qed.

(** X8. While the simulated client is not connected nothing goes through:
    a placement returns [-1], [cancelOrder] and [modifyOrder] return
    false, and the manager and the client, its id counter too, stay as
    they were. *)
Theorem nothing_through_disconnected call w :
  TradingClient.connected_ (OrderManager.client_ w) = false ->
  match call with
  | OrderManager.PlaceMarket _ _ _ | OrderManager.PlaceLimit _ _ _ _
  | OrderManager.PlaceStop _ _ _ _ | OrderManager.PlaceStopLimit _ _ _ _ _ =>
      fst (OrderManager.run call w) = OrderManager.RId (-1)
      ∧ OrderManager.self (snd (OrderManager.run call w)) = OrderManager.self w
      ∧ OrderManager.client_ (snd (OrderManager.run call w))
        = OrderManager.client_ w
  | OrderManager.Cancel _ | OrderManager.Modify _ _ =>
      fst (OrderManager.run call w) = OrderManager.RBool false
      ∧ OrderManager.self (snd (OrderManager.run call w)) = OrderManager.self w
      ∧ OrderManager.client_ (snd (OrderManager.run call w))
        = OrderManager.client_ w
  | _ => True
  end.
Proof.
  intros Hconn.
  assert (∀ o : Order D,
            TradingClient.placeOrder o (OrderManager.client_ w)
            = (-1, OrderManager.client_ w)) as Hplace.
  { intros o.
    change (TradingClient.placeOrder o (OrderManager.client_ w))
      with (TradingClient.Impl_placeOrder o (OrderManager.client_ w)).
    unfold TradingClient.Impl_placeOrder. by rewrite Hconn. }
  assert (∀ o, placement call (OrderManager.clock w) = Some o ->
               fst (OrderManager.run call w) = OrderManager.RId (-1)
               ∧ OrderManager.self (snd (OrderManager.run call w))
                 = OrderManager.self w
               ∧ OrderManager.client_ (snd (OrderManager.run call w))
                 = OrderManager.client_ w) as Hplacement.
  { intros o Hp. rewrite (run_placement _ _ _ Hp). cbn [fst snd].
    destruct (OrderManager.validateOrder (OrderManager.self w) o) eqn:Hv.
    - by rewrite (submit_valid _ _ Hv), Hplace.
    - by rewrite (submit_invalid _ _ Hv). }
  destruct call as [| | | | id | id newOrder | | | | | | |];
    try exact I; try (by eapply Hplacement).
  - cbn [OrderManager.run]. rewrite M_fmap_run, cancelOrder_eq.
    destruct (OrderManager.orders_ (OrderManager.self w) !! id); [| done].
    change (TradingClient.cancelOrder id (OrderManager.client_ w))
      with (TradingClient.Impl_cancelOrder id (OrderManager.client_ w)).
    unfold TradingClient.Impl_cancelOrder. by rewrite Hconn.
  - cbn [OrderManager.run]. rewrite M_fmap_run, modifyOrder_eq.
    destruct (OrderManager.orders_ (OrderManager.self w) !! id); [| done].
    destruct (OrderManager.validateOrder (OrderManager.self w) newOrder);
      [| done].
    change (TradingClient.modifyOrder id newOrder (OrderManager.client_ w))
      with (TradingClient.Impl_modifyOrder id newOrder
              (OrderManager.client_ w)).
    unfold TradingClient.Impl_modifyOrder. by rewrite Hconn.
Qed.

End SimulatedClient.

Section Limits.
Context {D : Type} `{Double.Ops D} {C : Type} `{TradingClient.Api D C}.

Lemma validateOrder_checks_risk (m : OrderManager.t D) (o : Order D) :
  OrderManager.checkRiskLimits m o = false ->
  OrderManager.validateOrder m o = false.
Proof.
  intros Hrisk. unfold OrderManager.validateOrder. rewrite Hrisk.
  by repeat match goal with |- context [if ?b then _ else _] => destruct b end.
Qed.

End Limits.

(** X9. A limit set with [setMaxPositionSize] applies to the next
    placement, whatever the limit was: a placement whose
    [quantity * price] is above the new limit returns [-1], and the book
    and the client stay as they were before the limit was set. *)
Theorem limit_applies_to_next_placement {C : Type}
        `{TradingClient.Api float C} (w : OrderManager.World float C)
        (v : float) call o :
  placement call (OrderManager.clock w) = Some o ->
  PrimFloat.ltb v (quantity o * price o) = true ->
  let w1 := snd (OrderManager.run (OrderManager.SetMaxPositionSize v) w) in
  fst (OrderManager.run call w1) = OrderManager.RId (-1)
  ∧ OrderManager.orders_ (OrderManager.self (snd (OrderManager.run call w1)))
    = OrderManager.orders_ (OrderManager.self w)
  ∧ OrderManager.client_ (snd (OrderManager.run call w1))
    = OrderManager.client_ w.
Proof.
  intros Hp Hgt w1.
  assert (OrderManager.validateOrder (OrderManager.self w1) o = false) as Hv.
  { apply validateOrder_checks_risk. unfold OrderManager.checkRiskLimits.
    change (Double.ltb (OrderManager.maxPositionSize_ (OrderManager.self w1))
                       (quantity o * price o)%D)
      with (PrimFloat.ltb v (PrimFloat.mul (quantity o) (price o))).
    by rewrite Hgt. }
  rewrite (run_placement call w1 o Hp), (submit_invalid _ _ Hv). done.
Qed.

Lemma limit_applies_to_next_placement_witness :
  fst (OrderManager.run
         (OrderManager.PlaceLimit "X" BUY 10%float 50%float)
         (snd (OrderManager.run (OrderManager.SetMaxPositionSize 100%float)
                                Desk.fresh)))
  = OrderManager.RId (-1).
Proof.
  assert (placement (OrderManager.PlaceLimit "X" BUY 10%float 50%float)
                    (OrderManager.clock Desk.fresh)
          = Some (mkOrder 0 "X" LIMIT BUY 10%float 50%float 0%float PENDING 0))
    as Hp by reflexivity.
  assert (PrimFloat.ltb 100%float (10 * 50)%float = true)
    as Hgt by reflexivity.
  exact (proj1 (limit_applies_to_next_placement Desk.fresh 100%float
                  _ _ Hp Hgt)).
Defined.

Lemma placement_accepted_witness :
  fst (OrderManager.run (OrderManager.PlaceLimit "X" BUY 10%float 50%float)
                        Desk.fresh) = OrderManager.RId 1001
  ∧ fst (OrderManager.getOrder MARKET BUY 1001 Desk.placed)
    = mkOrder 1001 "X" LIMIT BUY 10%float 50%float 0%float PENDING 0.
Proof.
  assert (placement (OrderManager.PlaceLimit "X" BUY 10%float 50%float)
                    (OrderManager.clock Desk.fresh)
          = Some (mkOrder 0 "X" LIMIT BUY 10%float 50%float 0%float PENDING 0))
    as Hp by reflexivity.
  pose proof (placement_accepted _ Desk.fresh _ Hp eq_refl eq_refl) as Hacc.
  cbv zeta in Hacc. destruct Hacc as (Hr & _ & Hget).
  split; [exact Hr | exact (Hget MARKET BUY)].
Defined.

Lemma book_keyed_by_id_witness :
  book_keyed (OrderManager.orders_ (OrderManager.self Desk.cancelled)).
Proof.
  assert (reachable Desk.cancelled) as Hreach.
  { apply reach_call. apply reach_call. apply reach_init. }
  exact (proj1 (book_keyed_by_id Desk.cancelled Hreach)).
Defined.

Lemma statistics_never_updated_witness :
  OrderManager.getDailyPnL (OrderManager.self Desk.cancelled) = 0%float
  ∧ OrderManager.winningTrades_ (OrderManager.self Desk.cancelled) = 0
  ∧ OrderManager.getWinRate (OrderManager.self Desk.cancelled) = 0%float.
Proof.
  assert (reachable Desk.cancelled) as Hreach.
  { apply reach_call. apply reach_call. apply reach_init. }
  destruct (statistics_never_updated Desk.cancelled Hreach)
    as (Hpnl & Hwon & Hrate).
  split; [exact Hpnl | split; [exact Hwon |]].
  rewrite Hrate. reflexivity.
Defined.

Lemma ids_never_reused_witness :
  ∃ id, fst (OrderManager.run
               (OrderManager.PlaceMarket "Y" SELL 5%float) Desk.cancelled)
        = OrderManager.RId id
        ∧ 1000 < id
        ∧ OrderManager.orders_ (OrderManager.self Desk.cancelled) !! id = None
        ∧ OrderManager.orders_
            (OrderManager.self
               (snd (OrderManager.run
                       (OrderManager.PlaceMarket "Y" SELL 5%float)
                       Desk.cancelled)))
          = <[id := set_orderId
                      (mkOrder 0 "Y" MARKET SELL 5%float 0%float 0%float
                               PENDING 0) id]>
              (OrderManager.orders_ (OrderManager.self Desk.cancelled))
        ∧ size (OrderManager.orders_
                  (OrderManager.self
                     (snd (OrderManager.run
                             (OrderManager.PlaceMarket "Y" SELL 5%float)
                             Desk.cancelled))))
          = S (size (OrderManager.orders_
                       (OrderManager.self Desk.cancelled))).
Proof.
  apply (ids_never_reused
           [OrderManager.PlaceLimit "X" BUY 10%float 50%float;
            OrderManager.Cancel 1001] 0
           (OrderManager.PlaceMarket "Y" SELL 5%float)
           (mkOrder 0 "Y" MARKET SELL 5%float 0%float 0%float PENDING 0)).
  - reflexivity.
  - reflexivity.
  - reflexivity.
Defined.

Lemma nothing_through_disconnected_witness :
  fst (OrderManager.run (OrderManager.PlaceLimit "X" BUY 10%float 50%float)
         (OrderManager.mkWorld OrderManager.init TradingClient.init 0 []))
  = OrderManager.RId (-1).
Proof.
  pose proof (nothing_through_disconnected
                (OrderManager.PlaceLimit "X" BUY 10%float 50%float)
                (OrderManager.mkWorld OrderManager.init TradingClient.init
                                      0 [])
                eq_refl) as Hd.
  exact (proj1 Hd).
Defined.

(** * The position book *)

Section PositionBook.
Context {D : Type} `{Double.Ops D}.

Local Open Scope double_scope.

Implicit Types (m : PortfolioManager.t D) (es : list Event)
         (p : Position D).

#[local] Existing Instance PortfolioManager.M_ret.
#[local] Existing Instance PortfolioManager.M_bind.

Lemma updatePosition_eq p m es :
  PortfolioManager.updatePosition p (m, es)
  = (tt, (PortfolioManager.set_positions m
            (<[pos_symbol p := p]> (PortfolioManager.positions_ m)),
          es ++ [EvLock; EvBook; EvUnlock])).
Proof.
  unfold PortfolioManager.updatePosition, PortfolioManager.positions_store,
    PortfolioManager.unlock, PortfolioManager.lock_guard,
    PortfolioManager.emit, mbind, PortfolioManager.M_bind. simpl.
  by rewrite <- !app_assoc.
Qed.

Lemma positions_read_eq {A} (k : gmap string (Position D) -> A) m es :
  (PortfolioManager.lock_guard ;;
   ps ← PortfolioManager.positions_read;
   PortfolioManager.unlock ;;
   mret (k ps)) (m, es)
  = (k (PortfolioManager.positions_ m), (m, es ++ [EvLock; EvBook; EvUnlock])).
Proof.
  unfold PortfolioManager.positions_read, PortfolioManager.unlock,
    PortfolioManager.lock_guard, PortfolioManager.emit, mbind,
    PortfolioManager.M_bind, mret, PortfolioManager.M_ret. simpl.
  by rewrite <- !app_assoc.
Qed.

Lemma getPosition_eq s m es :
  PortfolioManager.getPosition s (m, es)
  = (default (mkPosition EmptyString 0 0 0 0 0)
             (PortfolioManager.positions_ m !! s),
     (m, es ++ [EvLock; EvBook; EvUnlock])).
Proof. apply (positions_read_eq (fun ps => default _ (ps !! s))). Qed.

Lemma getAllPositions_eq m es :
  PortfolioManager.getAllPositions (m, es)
  = (snd <$> map_to_list (PortfolioManager.positions_ m),
     (m, es ++ [EvLock; EvBook; EvUnlock])).
Proof. apply (positions_read_eq (fun ps => snd <$> map_to_list ps)). Qed.

Lemma getTotalPortfolioValue_eq m es :
  PortfolioManager.getTotalPortfolioValue (m, es)
  = (fold_left (fun totalValue p => totalValue + marketValue p)
               (snd <$> map_to_list (PortfolioManager.positions_ m)) 0,
     (m, es ++ [EvLock; EvBook; EvUnlock])).
Proof.
  apply (positions_read_eq
           (fun ps => fold_left (fun totalValue p => totalValue + marketValue p)
                                (snd <$> map_to_list ps) 0)).
Qed.


Lemma run_positions (c : PortfolioManager.Call D) m es :
  fst (snd (PortfolioManager.run c (m, es)))
  = match c with
    | PortfolioManager.UpdatePosition p =>
        PortfolioManager.set_positions m
          (<[pos_symbol p := p]> (PortfolioManager.positions_ m))
    | _ => m
    end.
Proof.
  destruct c; cbn [PortfolioManager.run].
  - by rewrite updatePosition_eq.
  - unfold mbind, PortfolioManager.M_bind at 1. by rewrite getPosition_eq.
  - unfold mbind, PortfolioManager.M_bind at 1. by rewrite getAllPositions_eq.
  - unfold mbind, PortfolioManager.M_bind at 1.
    by rewrite getTotalPortfolioValue_eq.
  - unfold mbind, PortfolioManager.M_bind at 1.
    unfold PortfolioManager.getTotalUnrealizedPnL.
    by rewrite (positions_read_eq
                  (fun ps => fold_left (fun total p => total + unrealizedPnL p)
                                       (snd <$> map_to_list ps) 0)).
  - unfold mbind, PortfolioManager.M_bind at 1.
    unfold PortfolioManager.getTotalRealizedPnL.
    by rewrite (positions_read_eq
                  (fun ps => fold_left (fun total p => total + realizedPnL p)
                                       (snd <$> map_to_list ps) 0)).
Qed.

Lemma run_calls_keyed (cs : list (PortfolioManager.Call D)) w :
  positions_keyed (PortfolioManager.positions_ (fst w)) ->
  positions_keyed (PortfolioManager.positions_ (fst (run_calls cs w))).
Proof.
  revert w. induction cs as [| c cs IH]; intros w Hk; [done |].
  cbn [run_calls fold_left]. apply IH. destruct w as [m es].
  rewrite run_positions. destruct c; try exact Hk.
  cbn [PortfolioManager.positions_ PortfolioManager.set_positions fst] in *.
  intros s p Hlook. destruct (decide (pos_symbol position = s)) as [<- | Hne].
  - rewrite lookup_insert_eq in Hlook. by injection Hlook as <-.
  - rewrite lookup_insert_ne in Hlook by done. by apply Hk.
Qed.

(** X11. After any calls on a fresh portfolio manager the book holds one
    position per symbol, stored under that symbol: [getAllPositions]
    returns exactly the stored positions, as many as the book has
    symbols, no two of them with the same symbol, and [getPosition] on
    the symbol of any of them returns it. *)
Theorem one_position_per_symbol (cs : list (PortfolioManager.Call D)) :
  let w := run_calls cs (PortfolioManager.init, []) in
  let all := fst (PortfolioManager.getAllPositions w) in
  NoDup (pos_symbol <$> all)
  ∧ length all = size (PortfolioManager.positions_ (fst w))
  ∧ ∀ p, (p ∈ all
          ↔ PortfolioManager.positions_ (fst w) !! pos_symbol p = Some p)
         ∧ (p ∈ all
            -> fst (PortfolioManager.getPosition (pos_symbol p) w) = p).
Proof.
  intros w all.
  assert (positions_keyed (PortfolioManager.positions_ (fst w))) as Hk.
  { apply run_calls_keyed. intros s p Hlook. simpl in Hlook.
    by rewrite lookup_empty in Hlook. }
  unfold all. destruct w as [m es]. rewrite getAllPositions_eq.
  cbn [fst] in *.
  assert (∀ p, p ∈ snd <$> map_to_list (PortfolioManager.positions_ m)
               ↔ PortfolioManager.positions_ m !! pos_symbol p = Some p)
    as Hin.
  { intros p. rewrite list_elem_of_fmap. split.
    - intros ([s p'] & -> & Hin). apply elem_of_map_to_list in Hin.
      cbn [snd]. by rewrite (Hk _ _ Hin).
    - intros Hlook. exists (pos_symbol p, p). split; [done |].
      by apply elem_of_map_to_list. }
  split; [| split].
  - assert (pos_symbol <$> (snd <$> map_to_list (PortfolioManager.positions_ m))
            = fst <$> map_to_list (PortfolioManager.positions_ m)) as ->.
    { rewrite <- list_fmap_compose. apply list_fmap_ext.
      intros i [s p] Hi. cbn. apply (Hk s p).
      apply elem_of_map_to_list. by eapply list_elem_of_lookup_2. }
    apply NoDup_fst_map_to_list.
  - by rewrite length_fmap, length_map_to_list.
  - intros p. split; [apply Hin |].
    intros Hp. apply Hin in Hp. rewrite getPosition_eq. cbn [fst].
    by rewrite Hp.
Qed.

End PositionBook.

(** * Locks of the portfolio manager, rejected modifications *)

Section PositionLocks.
Context {D : Type} `{Double.Ops D} `{Double.Tests D}.

#[local] Existing Instance PortfolioManager.M_ret.
#[local] Existing Instance PortfolioManager.M_bind.

Implicit Types (m : PortfolioManager.t D) (es : list Event)
         (p : Position D).

Lemma getAssetAllocation_events m es :
  ∃ rest,
    snd (snd (PortfolioManager.getAssetAllocation (m, es)))
    = es ++ EvLock :: EvLock :: rest.
Proof.
  unfold PortfolioManager.getAssetAllocation.
  unfold mbind, PortfolioManager.M_bind at 1 2.
  unfold PortfolioManager.lock_guard at 1, PortfolioManager.emit at 1.
  cbn [fst snd]. rewrite getTotalPortfolioValue_eq.
  match goal with |- context [Double.eqb ?a ?b] => destruct (Double.eqb a b) end.
  - exists [EvBook; EvUnlock; EvUnlock].
    unfold PortfolioManager.unlock, PortfolioManager.emit, mbind,
      PortfolioManager.M_bind, mret, PortfolioManager.M_ret. cbn [fst snd].
    by rewrite <- !app_assoc.
  - exists [EvBook; EvUnlock; EvBook; EvUnlock].
    unfold PortfolioManager.positions_read, PortfolioManager.unlock,
      PortfolioManager.emit, PortfolioManager.get_self, mbind,
      PortfolioManager.M_bind, mret, PortfolioManager.M_ret. cbn [fst snd].
    by rewrite <- !app_assoc.
Qed.

Lemma getAssetAllocation_self m es :
  fst (snd (PortfolioManager.getAssetAllocation (m, es))) = m.
Proof.
  unfold PortfolioManager.getAssetAllocation.
  unfold mbind, PortfolioManager.M_bind at 1 2.
  unfold PortfolioManager.lock_guard at 1, PortfolioManager.emit at 1.
  cbn [fst snd]. rewrite getTotalPortfolioValue_eq.
  by match goal with |- context [Double.eqb ?a ?b] => destruct (Double.eqb a b) end.
Qed.

Lemma book_inside_locked_twice rest :
  book_inside false (EvLock :: EvLock :: rest) = false.
Proof. done. Qed.

(** X16. [getAssetAllocation] takes [positionsMutex_] and, still holding
    it, calls [getTotalPortfolioValue], which takes it again: the first
    two events of the call are two locks with no unlock between them. The
    same holds for [needsRebalancing] and [generateRebalancingOrders],
    which start by calling [getAssetAllocation]. *)
Theorem allocation_locks_twice m
        (targetAllocation : gmap string D) (threshold : D)
        (now : string -> Z) :
  (∃ rest, emitted PortfolioManager.getAssetAllocation m
           = EvLock :: EvLock :: rest)
  ∧ (∃ rest,
       emitted (PortfolioManager.needsRebalancing targetAllocation threshold)
               m
       = EvLock :: EvLock :: rest)
  ∧ (∃ rest,
       emitted (PortfolioManager.generateRebalancingOrders
                  now targetAllocation) m
       = EvLock :: EvLock :: rest)
  ∧ book_inside false (emitted PortfolioManager.getAssetAllocation m) = false
  ∧ book_inside false
      (emitted (PortfolioManager.needsRebalancing targetAllocation threshold)
               m) = false
  ∧ book_inside false
      (emitted (PortfolioManager.generateRebalancingOrders
                  now targetAllocation) m) = false.
Proof.
  destruct (getAssetAllocation_events m []) as [rest Hrest].
  assert (emitted PortfolioManager.getAssetAllocation m
          = EvLock :: EvLock :: rest) as Ha by exact Hrest.
  assert (emitted (PortfolioManager.needsRebalancing targetAllocation
                     threshold) m = EvLock :: EvLock :: rest) as Hn.
  { unfold emitted, PortfolioManager.needsRebalancing.
    unfold mbind, PortfolioManager.M_bind.
    rewrite (surjective_pairing (PortfolioManager.getAssetAllocation (m, []))).
    exact Hrest. }
  assert (emitted (PortfolioManager.generateRebalancingOrders
                     now targetAllocation) m
          = EvLock :: EvLock :: rest ++ [EvLock; EvBook; EvUnlock]) as Hg.
  { unfold emitted, PortfolioManager.generateRebalancingOrders.
    unfold mbind, PortfolioManager.M_bind at 1.
    rewrite (surjective_pairing (PortfolioManager.getAssetAllocation (m, []))).
    rewrite (surjective_pairing
               (snd (PortfolioManager.getAssetAllocation (m, [])))).
    rewrite Hrest, getAssetAllocation_self.
    unfold mbind, PortfolioManager.M_bind.
    by rewrite getTotalPortfolioValue_eq. }
  rewrite Ha, Hn, Hg. repeat split; eauto.
Qed.

(** X17. [getPortfolioReturn], [getCashAllocation] and
    [calculatePositionWeight] reach the book only through
    [getTotalPortfolioValue]: each takes the mutex once, reads the book
    under it and releases it before it computes, and leaves the manager as
    it was. *)
Theorem value_readers_lock_once m es p :
  snd (PortfolioManager.getPortfolioReturn (m, es))
  = (m, es ++ [EvLock; EvBook; EvUnlock])
  ∧ snd (PortfolioManager.getCashAllocation (m, es))
    = (m, es ++ [EvLock; EvBook; EvUnlock])
  ∧ snd (PortfolioManager.calculatePositionWeight p (m, es))
    = (m, es ++ [EvLock; EvBook; EvUnlock])
  ∧ book_inside false (emitted PortfolioManager.getPortfolioReturn m) = true
  ∧ book_inside false (emitted PortfolioManager.getCashAllocation m) = true
  ∧ book_inside false
      (emitted (PortfolioManager.calculatePositionWeight p) m) = true.
Proof.
  assert (∀ es, snd (PortfolioManager.getPortfolioReturn (m, es))
                = (m, es ++ [EvLock; EvBook; EvUnlock])) as Hr.
  { intros es'. unfold PortfolioManager.getPortfolioReturn.
    unfold mbind, PortfolioManager.M_bind at 1.
    rewrite getTotalPortfolioValue_eq.
    unfold mbind, PortfolioManager.M_bind, PortfolioManager.get_self.
    cbn [fst snd].
    by match goal with
       |- context [Double.eqb ?a ?b] => destruct (Double.eqb a b) end. }
  assert (∀ es, snd (PortfolioManager.getCashAllocation (m, es))
                = (m, es ++ [EvLock; EvBook; EvUnlock])) as Hc.
  { intros es'. unfold PortfolioManager.getCashAllocation.
    unfold mbind, PortfolioManager.M_bind at 1.
    rewrite getTotalPortfolioValue_eq.
    by match goal with
       |- context [Double.eqb ?a ?b] => destruct (Double.eqb a b) end. }
  assert (∀ es, snd (PortfolioManager.calculatePositionWeight p (m, es))
                = (m, es ++ [EvLock; EvBook; EvUnlock])) as Hw.
  { intros es'. unfold PortfolioManager.calculatePositionWeight.
    unfold mbind, PortfolioManager.M_bind at 1.
    rewrite getTotalPortfolioValue_eq.
    by match goal with
       |- context [Double.eqb ?a ?b] => destruct (Double.eqb a b) end. }
  unfold emitted. rewrite !Hr, !Hc, !Hw. done.
Qed.

End PositionLocks.

Section ModifyRejected.
Context {D : Type} `{Double.Ops D} {C : Type} `{TradingClient.Api D C}.

(** X18. [modifyOrder] returns true exactly when the id is in the book,
    the new order passes [validateOrder] and the client confirms the
    modification. When it returns false the manager is as it was, and when
    the id is missing or the new order invalid the client is not called. *)
Theorem modifyOrder_rejected id (newOrder : Order D)
        (w : OrderManager.World D C) :
  let r := OrderManager.modifyOrder id newOrder w in
  (fst r = true
   ↔ is_Some (OrderManager.orders_ (OrderManager.self w) !! id)
     ∧ OrderManager.validateOrder (OrderManager.self w) newOrder = true
     ∧ fst (TradingClient.modifyOrder id newOrder (OrderManager.client_ w))
       = true)
  ∧ (fst r = false -> OrderManager.self (snd r) = OrderManager.self w)
  ∧ (OrderManager.orders_ (OrderManager.self w) !! id = None
     ∨ OrderManager.validateOrder (OrderManager.self w) newOrder = false ->
     OrderManager.client_ (snd r) = OrderManager.client_ w
     ∧ EvVenue ∉ events_of (OrderManager.Modify id newOrder) w).
Proof.
  intros r.
  assert (EvVenue ∉ [EvLock; EvBook; EvUnlock]) as Hquiet.
  { intros Hin. repeat (apply elem_of_cons in Hin as [Hin | Hin];
                        [discriminate |]).
    by apply elem_of_nil in Hin. }
  unfold r. rewrite events_of_modify, modifyOrder_eq.
  destruct (OrderManager.orders_ (OrderManager.self w) !! id) as [o |].
  - destruct (OrderManager.validateOrder (OrderManager.self w) newOrder).
    + destruct (TradingClient.modifyOrder id newOrder (OrderManager.client_ w))
        as [[] c]; cbn [fst snd].
      * split; [| split].
        -- split; [by eauto | done].
        -- done.
        -- intros [? | ?]; done.
      * split; [| split].
        -- split; [done | by intros (_ & _ & ?)].
        -- done.
        -- intros [? | ?]; done.
    + cbn [fst snd]. split; [| split].
      * split; [done | by intros (_ & ? & _)].
      * done.
      * done.
  - cbn [fst snd]. split; [| split].
    + split; [done | by intros ([? ?] & _)].
    + done.
    + done.
Qed.

End ModifyRejected.
